(** * Support Email NLP: a shallow embedding of [src/main.py]

    The script enriches a table of support emails: it normalises the body,
    classifies urgency, topic and sentiment by keyword, and produces a summary
    and a reply, from an optional external generator or from deterministic
    heuristics.

    Conventions of the embedding.
    - A Python [str] is a [string]; a character [c] stands for the code point
      [N_of_ascii c], so the development covers texts over U+0000..U+00FF.
      [isspace] and [lower] below are Python's on that range.
    - Labels are the strings the script returns (['high'], ['general'], ...).
    - A dict is a [gmap] with string keys; a failed [d[k]] is [None].
    - A missing table cell (pandas NaN) is [None] in a [cell]. *)

From Stdlib Require Import ZArith NArith QArith Ascii String.
From stdpp Require Import gmap strings list.

Local Open Scope Z_scope.

(** ** Python string primitives *)

Module Py.

Definition LF : ascii := "010"%char.
Definition CR : ascii := "013"%char.

(** The string made of one character. *)
Definition chr (c : ascii) : string := String c "".

Definition nl : string := chr LF.

(** [str.isspace] of one character, for code points below 256:
    TAB..CR, FS..US, SPACE, NEL (U+0085) and NBSP (U+00A0). *)
Definition isspace (c : ascii) : bool :=
  let n := N_of_ascii c in
  ((9 <=? n) && (n <=? 13) || (28 <=? n) && (n <=? 32)
   || (n =? 133) || (n =? 160))%N.

(** [str.lower] of one character, for code points below 256: A..Z and
    U+00C0..U+00DE but the multiplication sign U+00D7 move up by 32. *)
Definition lower_char (c : ascii) : ascii :=
  let n := N_of_ascii c in
  if ((65 <=? n) && (n <=? 90)
      || (192 <=? n) && (n <=? 222) && negb (n =? 215))%N
  then ascii_of_N (n + 32) else c.

Fixpoint lower (s : string) : string :=
  match s with
  | "" => ""
  | String c s' => String (lower_char c) (lower s')
  end.

(** [t.startswith(k)]. *)
Fixpoint startswith (k t : string) : bool :=
  match k, t with
  | "", _ => true
  | String a k', String b t' => if decide (a = b) then startswith k' t' else false
  | String _ _, "" => false
  end.

(** [k in t]: [k] occurs in [t] at some position. *)
Fixpoint contains (k t : string) : bool :=
  startswith k t ||
  match t with
  | "" => false
  | String _ t' => contains k t'
  end.

(** [any(k in t for k in ks)]. *)
Definition any_in (ks : list string) (t : string) : bool :=
  existsb (fun k => contains k t) ks.

(** [s or d] for a [str] [s]: the empty string is falsy. *)
Definition or_else (s d : string) : string :=
  match s with "" => d | _ => s end.

(** [s.lstrip()], [s.rstrip()] and [s.strip()]. *)
Fixpoint lstrip (s : string) : string :=
  match s with
  | "" => ""
  | String c s' => if isspace c then lstrip s' else s
  end.

Fixpoint rstrip (s : string) : string :=
  match s with
  | "" => ""
  | String c s' =>
      match rstrip s' with
      | "" => if isspace c then "" else chr c
      | r => String c r
      end
  end.

Definition strip (s : string) : string := rstrip (lstrip s).

(** [s.split()]: the maximal runs of non-whitespace characters, in order.
    [cur] is the run being read. *)
Definition emit (cur : string) (rest : list string) : list string :=
  match cur with "" => rest | _ => cur :: rest end.

Fixpoint split_go (cur s : string) : list string :=
  match s with
  | "" => emit cur []
  | String c s' =>
      if isspace c then emit cur (split_go "" s')
      else split_go (cur +:+ chr c) s'
  end.

Definition split (s : string) : list string := split_go "" s.

(** [sep.join(ws)]. *)
Fixpoint join (sep : string) (ws : list string) : string :=
  match ws with
  | [] => ""
  | [w] => w
  | w :: ws' => w +:+ sep +:+ join sep ws'
  end.

(** [l[:n]] for a Python integer [n]: a negative bound counts from the end. *)
Definition slice_to {A} (n : Z) (l : list A) : list A :=
  if 0 <=? n then take (Z.to_nat n) l
  else take (length l - Z.to_nat (- n))%nat l.

(** [len(l) > n]. *)
Definition len_gt {A} (l : list A) (n : Z) : bool := n <? Z.of_nat (length l).

End Py.

(** ** The classifiers and text functions of [main.py] *)

Module Main.
Import Py.

(** [re.sub(r"\r\n", "\n", text)]: one left-to-right pass. *)
Fixpoint crlf_to_lf (s : string) : string :=
  match s with
  | "" => ""
  | String c s' =>
      match s' with
      | String d s'' =>
          if decide (c = CR /\ d = LF) then String LF (crlf_to_lf s'')
          else String c (crlf_to_lf s')
      | "" => chr c
      end
  end.

(** [re.sub(r"\n{2,}", "\n\n", text)]: every maximal run of two or more
    line feeds becomes two. [run] counts the line feeds already written for
    the run being read. *)
Fixpoint collapse_go (run : nat) (s : string) : string :=
  match s with
  | "" => ""
  | String c s' =>
      if decide (c = LF) then
        match run with
        | O | S O => String LF (collapse_go (S run) s')
        | _ => collapse_go run s'
        end
      else String c (collapse_go 0 s')
  end.

Definition collapse_blank_lines (s : string) : string := collapse_go 0 s.

(** The alternatives of [r"\n--\n|\nRegards,|\nBest,|\nThanks,"]. *)
Definition MARKERS : list string :=
  [ nl +:+ "--" +:+ nl; nl +:+ "Regards,"; nl +:+ "Best,"; nl +:+ "Thanks," ].

Definition marker_at (s : string) : bool :=
  existsb (fun m => startswith m s) MARKERS.

(** [re.split(pattern, text)[0]]: the text before the leftmost match. *)
Fixpoint before_marker (s : string) : string :=
  if marker_at s then ""
  else match s with
       | "" => ""
       | String c s' => String c (before_marker s')
       end.

(** A table cell: [None] is pandas' NaN. *)
Definition cell : Type := option string.

Definition clean_text (text : cell) : string :=
  match text with
  | None => ""
  | Some text =>
      let text := crlf_to_lf text in
      let text := collapse_blank_lines text in
      let text := before_marker text in
      strip text
  end.

Definition detect_urgency (text : string) : string :=
  let t := lower (or_else text "") in
  if any_in ["urgent"; "critical"; "immediate"; "downtime"; "blocked"] t
  then "high"
  else if any_in ["help"; "support"; "issue"; "problem"; "error"] t
  then "medium"
  else "low".

Definition detect_topic (text : string) : string :=
  let t := lower (or_else text "") in
  if contains "billing" t || contains "refund" t || contains "pricing" t
  then "billing/refund"
  else if contains "login" t || contains "password" t
          || contains "account" t || contains "access" t
  then "login/account"
  else if contains "integration" t || contains "api" t || contains "crm" t
  then "integration/api"
  else if contains "downtime" t || contains "system" t || contains "outage" t
  then "system/downtime"
  else "general".

Definition simple_sentiment (text : string) : string :=
  let t := lower (or_else text "") in
  if any_in ["thank"; "great"; "appreciate"; "good"; "love"] t
  then "positive"
  else if any_in ["angry"; "bad"; "worst"; "unacceptable"; "terrible"] t
  then "negative"
  else "neutral".

Definition summarize (text : string) (max_words : Z) : string :=
  let words := split (or_else text "") in
  join " " (slice_to max_words words)
  +:+ (if len_gt words max_words then "..." else "").

(** The default of [max_words]. *)
Definition DEFAULT_MAX_WORDS : Z := 25.

(** A value held by the dict given to [generate_reply]. *)
Inductive pyval : Type :=
| VNaN
| VStr (s : string).

(** [row.get(k)] inside an f-string: [None] prints as "None", NaN as "nan". *)
Definition fmt (v : option pyval) : string :=
  match v with
  | None => "None"
  | Some VNaN => "nan"
  | Some (VStr s) => s
  end.

(** [row.get(k) == s] for a string literal [s]. *)
Definition eq_str (v : option pyval) (s : string) : bool :=
  match v with
  | Some (VStr x) => bool_decide (x = s)
  | _ => false
  end.

Definition generate_reply (row : gmap string pyval) : string :=
  if eq_str (row !! "likely_urgency") "high" then
    "Dear " +:+ fmt (row !! "sender") +:+ "," +:+ nl +:+ nl
    +:+ "We understand your issue is urgent regarding "
    +:+ fmt (row !! "subject_topic")
    +:+ ". Our team is already working on it and will update you shortly."
    +:+ nl +:+ nl +:+ "Best regards," +:+ nl +:+ "Support Team"
  else if eq_str (row !! "likely_urgency") "medium" then
    "Dear " +:+ fmt (row !! "sender") +:+ "," +:+ nl +:+ nl
    +:+ "Thank you for reaching out about "
    +:+ fmt (row !! "subject_topic")
    +:+ ". We are reviewing your request and will get back soon."
    +:+ nl +:+ nl +:+ "Best regards," +:+ nl +:+ "Support Team"
  else
    "Dear " +:+ fmt (row !! "sender") +:+ "," +:+ nl +:+ nl
    +:+ "Thanks for contacting us. We noted your query about "
    +:+ fmt (row !! "subject_topic")
    +:+ " and will respond in due course."
    +:+ nl +:+ nl +:+ "Best regards," +:+ nl +:+ "Support Team".

End Main.

(** ** The optional external generator and the batch of [main] *)

Module Batch.
Import Py Main.

(** A row of the input table: a missing cell is [None]. *)
Record InputRecord : Type := mkInput {
  sender : cell;
  subject : cell;
  body : cell
}.

(** A row of the output table, its derived columns in the order they are
    added. [subject] and [body] have had [fillna('')] applied. *)
Record EnrichedRecord : Type := mkEnriched {
  out_sender : cell;
  out_subject : string;
  out_body : string;
  clean_body : string;
  urg_subj : string;
  urg_body : string;
  likely_urgency : string;
  subject_topic : string;
  sentiment : string;
  summary : string;
  auto_reply : string
}.

(** [Series.fillna('')] on one cell. *)
Definition fillna (c : cell) : string := default "" c.

(** [order = {'low':0,'medium':1,'high':2}]. *)
Definition order : gmap string Z :=
  {[ "low" := 0; "medium" := 1; "high" := 2 ]}.

(** The lambda of [df.apply(..., axis=1)]; [None] is a [KeyError] of
    [order[...]]. *)
Definition pick_urgency (us ub : string) : option string :=
  a ← order !! us;
  b ← order !! ub;
  Some (if b <=? a then us else ub).

(** A table value as the reply dict holds it. *)
Definition of_cell (c : cell) : pyval :=
  match c with None => VNaN | Some s => VStr s end.

(** The columns computed before the loop over the rows, for one row. *)
Record Derived : Type := mkDerived {
  d_sender : cell;
  d_subject : string;
  d_body : string;
  d_clean_body : string;
  d_urg_subj : string;
  d_urg_body : string;
  d_likely_urgency : string;
  d_subject_topic : string;
  d_sentiment : string
}.

Definition derive (r : InputRecord) : option Derived :=
  let subj := fillna (subject r) in
  let bod := fillna (body r) in
  let cb := clean_text (Some bod) in
  let us := detect_urgency subj in
  let ub := detect_urgency cb in
  lu ← pick_urgency us ub;
  Some (mkDerived (sender r) subj bod cb us ub lu
          (detect_topic subj) (simple_sentiment cb)).

(** The dict literal passed to [generate_reply]. *)
Definition reply_row (d : Derived) : gmap string pyval :=
  {[ "sender" := of_cell (d_sender d);
     "subject_topic" := VStr (d_subject_topic d);
     "likely_urgency" := VStr (d_likely_urgency d) ]}.

(** The process environment the script reads. *)
Record Environ : Type := mkEnviron {
  OPENAI_API_KEY : option string;
  OPENAI_MODEL : option string;
  openai_installed : bool
}.

(** The arguments of one [openai.ChatCompletion.create] call. *)
Record request : Type := mkRequest {
  model : string;
  content : string;
  max_tokens : Z;
  temperature : Q
}.

(** What a call does: it raises, or returns a response. The response is
    [None] when falsy, else the [message['content']] of each of its
    choices, [None] for a content that is not a string. *)
Inductive outcome : Type :=
| Raised (e : string)
| Returned (resp : option (list (option string))).

(** A value or a raised exception. *)
Inductive result (A : Type) : Type :=
| Val (a : A)
| Exc (e : string).
Arguments Val {A} a.
Arguments Exc {A} e.

(** [resp.choices[0].message['content'].strip() if resp and resp.choices
    else None]. *)
Definition content_of (resp : option (list (option string)))
  : result (option string) :=
  match resp with
  | None | Some [] => Val None
  | Some (Some c :: _) => Val (Some (strip c))
  | Some (None :: _) => Exc "'NoneType' object has no attribute 'strip'"
  end.

Section External.
(** The service behind [openai]: its state and its one operation. *)
Context {World : Type}.
Variable create : request -> World -> outcome * World.
Variable env : Environ.

(** The state the script runs in: the service and the lines printed. *)
Record State : Type := mkState {
  world : World;
  stdout : list string
}.

Definition print (line : string) (st : State) : State :=
  mkState (world st) (stdout st ++ [line]).

Definition chosen_model : string := default "gpt-4o-mini" (OPENAI_MODEL env).

Definition call (req : request) (st : State) : outcome * State :=
  let '(o, w) := create req (world st) in (o, mkState w (stdout st)).

(** The two requests made for one text. *)
Definition summary_request (text : string) : request :=
  mkRequest chosen_model
    ("Provide a 1-2 sentence summary of the following support email:"
     +:+ nl +:+ nl +:+ text)
    120 (2 # 10).

Definition reply_request (text : string) : request :=
  mkRequest chosen_model
    ("Draft a concise support reply (4-6 sentences) for the email:"
     +:+ nl +:+ nl +:+ text)
    250 (2 # 10).

(** The body of the [try] block. *)
Definition attempt (text : string) (st : State)
  : result (option string * option string) * State :=
  if negb (openai_installed env) then (Exc "No module named 'openai'", st)
  else
    let '(o1, st1) := call (summary_request text) st in
    match o1 with
    | Raised e => (Exc e, st1)
    | Returned resp =>
        match content_of resp with
        | Exc e => (Exc e, st1)
        | Val summary =>
            let '(o2, st2) := call (reply_request text) st1 in
            match o2 with
            | Raised e => (Exc e, st2)
            | Returned resp2 =>
                match content_of resp2 with
                | Exc e => (Exc e, st2)
                | Val reply => (Val (summary, reply), st2)
                end
            end
        end
    end.

Definition try_openai_summary_and_reply (text : string) (st : State)
  : (option string * option string) * State :=
  match OPENAI_API_KEY env with
  | None | Some "" => ((None, None), st)
  | Some _ =>
      match attempt text st with
      | (Val sr, st') => (sr, st')
      | (Exc e, st') =>
          ((None, None),
           print ("OpenAI call failed, falling back to heuristics: " +:+ e) st')
      end
  end.

(** One turn of the loop over the rows. *)
Definition enrich (d : Derived) (st : State) : EnrichedRecord * State :=
  let '((s, rep), st') := try_openai_summary_and_reply (d_clean_body d) st in
  let s := match s with
           | None => summarize (d_clean_body d) DEFAULT_MAX_WORDS
           | Some s => s
           end in
  let rep := match rep with
             | None => generate_reply (reply_row d)
             | Some rep => rep
             end in
  (mkEnriched (d_sender d) (d_subject d) (d_body d) (d_clean_body d)
     (d_urg_subj d) (d_urg_body d) (d_likely_urgency d)
     (d_subject_topic d) (d_sentiment d) s rep, st').

(** The row the deterministic path alone produces. *)
Definition deterministic (d : Derived) : EnrichedRecord :=
  mkEnriched (d_sender d) (d_subject d) (d_body d) (d_clean_body d)
    (d_urg_subj d) (d_urg_body d) (d_likely_urgency d)
    (d_subject_topic d) (d_sentiment d)
    (summarize (d_clean_body d) DEFAULT_MAX_WORDS)
    (generate_reply (reply_row d)).

Fixpoint enrich_all (ds : list Derived) (st : State)
  : list EnrichedRecord * State :=
  match ds with
  | [] => ([], st)
  | d :: ds' =>
      let '(e, st1) := enrich d st in
      let '(es, st2) := enrich_all ds' st1 in
      (e :: es, st2)
  end.

Definition DATA_IN : string := "data/Sample_Support_Emails_Dataset.csv".
Definition OUT : string := "output/processed_emails.csv".

(** How a run ends: no input table, an uncaught exception (nothing is
    printed or written), or the table written to [OUT]. *)
Inductive run : Type :=
| NoInput
| Aborted
| Written (rows : list EnrichedRecord).

(** The run on a table that has rows. *)
Definition process (rows : list InputRecord) (st : State) : run * State :=
  match mapM derive rows with
  | None => (Aborted, st)
  | Some ds =>
      let '(es, st') := enrich_all ds st in
      (Written es, print ("Processed output saved to " +:+ OUT) st')
  end.

(** [main()]; [table] is [None] when [DATA_IN] does not exist. On a table
    without rows [df.apply(..., axis=1)] returns a frame, not a column, and
    the assignment to [df['likely_urgency']] raises [ValueError]. *)
Definition main (table : option (list InputRecord)) (st : State)
  : run * State :=
  match table with
  | None => (NoInput, print ("Input file not found at " +:+ DATA_IN) st)
  | Some [] => (Aborted, st)
  | Some rows => process rows st
  end.

End External.

Arguments State : clear implicits.
Arguments mkState {World} _ _.

End Batch.

(** ** What the spec says, stated over the same primitives *)

Module Spec.
Import Py Main Batch.

(** [k] occurs in [t] as a substring. *)
Definition occurs (k t : string) : Prop := ∃ a b, t = a +:+ k +:+ b.

(** [k] occurs in [t] in some mix of cases: a substring of [t] lower-cases
    to [k]. *)
Definition occurs_any_case (k t : string) : Prop :=
  ∃ a u b, t = a +:+ u +:+ b ∧ lower u = k.

(** The three urgency levels and their order low < medium < high. *)
Inductive urgency : Type := Low | Medium | High.

Definition rank (u : urgency) : nat :=
  match u with Low => 0 | Medium => 1 | High => 2 end.

Definition urgency_max (a b : urgency) : urgency :=
  if decide (rank a ≤ rank b)%nat then b else a.

Definition label (u : urgency) : string :=
  match u with Low => "low" | Medium => "medium" | High => "high" end.

Definition URGENCY_LABELS : list string := ["low"; "medium"; "high"].
Definition TOPIC_LABELS : list string :=
  ["billing/refund"; "login/account"; "integration/api"; "system/downtime";
   "general"].
Definition SENTIMENT_LABELS : list string := ["positive"; "negative"; "neutral"].

(** The keyword groups of the topic classifier, in priority order. *)
Definition TOPIC_GROUPS : list (list string * string) :=
  [ (["billing"; "refund"; "pricing"], "billing/refund");
    (["login"; "password"; "account"; "access"], "login/account");
    (["integration"; "api"; "crm"], "integration/api");
    (["downtime"; "system"; "outage"], "system/downtime") ].

Definition group_matches (t : string) (g : list string * string) : Prop :=
  Exists (λ k, occurs k t) g.1.

(** [l] is the label of the first group of [groups] that matches [t], or
    [dflt] when no group does. *)
Definition first_group (groups : list (list string * string))
    (dflt t l : string) : Prop :=
  (∃ pre g post, groups = pre ++ g :: post ∧ l = g.2
     ∧ group_matches t g ∧ Forall (λ g', ¬ group_matches t g') pre)
  ∨ (l = dflt ∧ Forall (λ g', ¬ group_matches t g') groups).

(** The same, as a function over the table. *)
Fixpoint first_match (groups : list (list string * string))
    (dflt t : string) : string :=
  match groups with
  | [] => dflt
  | g :: rest => if any_in g.1 t then g.2 else first_match rest dflt t
  end.

(** The columns of [e] computed before the loop are those of [d]. *)
Definition carries (d : Derived) (e : EnrichedRecord) : Prop :=
  out_sender e = d_sender d ∧ out_subject e = d_subject d
  ∧ out_body e = d_body d ∧ clean_body e = d_clean_body d
  ∧ urg_subj e = d_urg_subj d ∧ urg_body e = d_urg_body d
  ∧ likely_urgency e = d_likely_urgency d
  ∧ subject_topic e = d_subject_topic d ∧ sentiment e = d_sentiment d.

(** [t.endswith(k)]. *)
Fixpoint endswith (k t : string) : bool :=
  bool_decide (t = k) ||
  match t with
  | "" => false
  | String _ t' => endswith k t'
  end.

(** The first and the last character of a string. *)
Definition first_char (s : string) : option ascii :=
  match s with "" => None | String c _ => Some c end.

Fixpoint last_char (s : string) : option ascii :=
  match s with
  | "" => None
  | String c s' => match s' with "" => Some c | _ => last_char s' end
  end.

(** The number of line feeds a string starts with. *)
Fixpoint leading_lf (s : string) : nat :=
  match s with
  | "" => 0
  | String c s' => if decide (c = LF) then S (leading_lf s') else 0
  end.

(** A run of [k] line feeds. *)
Fixpoint lfs (k : nat) : string :=
  match k with
  | O => ""
  | S k' => String LF (lfs k')
  end.

(** The line that starts at [s] is a boundary marker in the words of the
    spec: it holds "--" and nothing else, or it starts with "Regards,",
    "Best," or "Thanks,". *)
Definition marker_line (s : string) : bool :=
  bool_decide (s = "--") || startswith ("--" +:+ nl) s
  || startswith "Regards," s || startswith "Best," s || startswith "Thanks," s.

(** The text before the first marker line, read line by line; [bol] tells
    that [s] starts a line. *)
Fixpoint spec_before_marker (bol : bool) (s : string) : string :=
  if bol && marker_line s then ""
  else match s with
       | "" => ""
       | String c s' => String c (spec_before_marker (bool_decide (c = LF)) s')
       end.

(** The normalizer in the words of the spec: any marker line bounds the
    text, the first and the last line included. The two collapsing steps are
    those of the code. *)
Definition spec_clean_text (raw : string) : string :=
  strip (spec_before_marker true (collapse_blank_lines (crlf_to_lf raw))).

(** A string without whitespace, and a string of whitespace only. *)
Fixpoint spaceless (s : string) : bool :=
  match s with
  | "" => true
  | String c s' => negb (isspace c) && spaceless s'
  end.

Fixpoint blank (s : string) : bool :=
  match s with
  | "" => true
  | String c s' => isspace c && blank s'
  end.

(** A token: a non-empty string without whitespace. *)
Definition token (w : string) : Prop := w ≠ "" ∧ spaceless w = true.

(** The text at [s] is at a token boundary: it is over or goes on with
    whitespace. *)
Definition at_boundary (s : string) : Prop :=
  match s with "" => True | String c _ => isspace c = true end.

(** [Tokens s ws]: [ws] are the maximal runs of non-whitespace characters of
    [s], in order, the rest of [s] being whitespace. *)
Inductive Tokens : string → list string → Prop :=
| Tokens_blank (g : string) :
    blank g = true → Tokens g []
| Tokens_word (g w rest : string) (ws : list string) :
    blank g = true → token w → at_boundary rest → Tokens rest ws →
    Tokens (g +:+ w +:+ rest) (w :: ws).

(** The reply templates as section 6 of the spec writes them: [\n] stands
    for a line feed, [{sender}] and [{topic}] for the two substitutions. *)
Definition TEMPLATE_HIGH : string :=
  "Dear {sender},\n\nWe understand your issue is urgent regarding {topic}. Our team is already working on it and will update you shortly.\n\nBest regards,\nSupport Team".

Definition TEMPLATE_MEDIUM : string :=
  "Dear {sender},\n\nThank you for reaching out about {topic}. We are reviewing your request and will get back soon.\n\nBest regards,\nSupport Team".

Definition TEMPLATE_DEFAULT : string :=
  "Dear {sender},\n\nThanks for contacting us. We noted your query about {topic} and will respond in due course.\n\nBest regards,\nSupport Team".

Definition template_for (urgency : string) : string :=
  if decide (urgency = "high") then TEMPLATE_HIGH
  else if decide (urgency = "medium") then TEMPLATE_MEDIUM
  else TEMPLATE_DEFAULT.

(** Reading the escapes of a template. *)
Fixpoint unescape (s : string) : string :=
  match s with
  | "" => ""
  | String c s' =>
      match s' with
      | String d s'' =>
          if decide (c = "092"%char ∧ d = "n"%char) then String LF (unescape s'')
          else String c (unescape s')
      | "" => chr c
      end
  end.

(** Substituting [sender] and [topic] for the placeholders, left to right and
    once; [skip] characters of a placeholder remain to be passed over. *)
Fixpoint substitute (sender topic : string) (skip : nat) (s : string) : string :=
  match s with
  | "" => ""
  | String c s' =>
      match skip with
      | S k => substitute sender topic k s'
      | O =>
          if startswith "{sender}" s then sender +:+ substitute sender topic 7 s'
          else if startswith "{topic}" s then topic +:+ substitute sender topic 6 s'
          else String c (substitute sender topic 0 s')
      end
  end.

Definition render (template sender topic : string) : string :=
  substitute sender topic 0 (unescape template).

(** The dict [main] passes to [generate_reply], for three strings. *)
Definition reply_args (sender topic urgency : string) : gmap string pyval :=
  {[ "sender" := VStr sender;
     "subject_topic" := VStr topic;
     "likely_urgency" := VStr urgency ]}.

(** The rows a run wrote. *)
Definition rows_of (r : run) : list EnrichedRecord :=
  match r with Written rows => rows | _ => [] end.

(** The keyword lists of the urgency and sentiment classifiers. *)
Definition URGENT_WORDS : list string :=
  ["urgent"; "critical"; "immediate"; "downtime"; "blocked"].
Definition HELP_WORDS : list string :=
  ["help"; "support"; "issue"; "problem"; "error"].
Definition POSITIVE_WORDS : list string :=
  ["thank"; "great"; "appreciate"; "good"; "love"].
Definition NEGATIVE_WORDS : list string :=
  ["angry"; "bad"; "worst"; "unacceptable"; "terrible"].

(** One of the keywords occurs in the text, in some mix of cases. *)
Definition matches_any (ks : list string) (t : string) : Prop :=
  Exists (λ k, occurs_any_case k t) ks.

(** The urgency a dict holds for [generate_reply]: a missing key, or a value
    that is not a string, equals no literal. *)
Definition urgency_key (row : gmap string pyval) : string :=
  match row !! "likely_urgency" with
  | Some (VStr u) => u
  | _ => ""
  end.

(** [ws] with [x] glued to its last word, [x] alone when there is none. *)
Fixpoint glue (ws : list string) (x : string) : list string :=
  match ws with
  | [] => [x]
  | [w] => [w +:+ x]
  | w :: ws' => w :: glue ws' x
  end.

(** Two output rows agree on the columns computed before the loop. *)
Definition same_derived_columns (e e' : EnrichedRecord) : Prop :=
  out_sender e = out_sender e' ∧ out_subject e = out_subject e'
  ∧ out_body e = out_body e' ∧ clean_body e = clean_body e'
  ∧ urg_subj e = urg_subj e' ∧ urg_body e = urg_body e'
  ∧ likely_urgency e = likely_urgency e'
  ∧ subject_topic e = subject_topic e' ∧ sentiment e = sentiment e'.

(** A service that also keeps the list of the requests it received. *)
Definition recording {World : Type}
    (create : request → World → outcome * World)
    (req : request) (w : World * list request)
  : outcome * (World * list request) :=
  let '(o, w') := create req w.1 in (o, (w', w.2 ++ [req])).

(** The position of the first group of [groups] that matches [t], their
    number when none does. *)
Fixpoint first_index (groups : list (list string * string)) (t : string)
  : nat :=
  match groups with
  | [] => 0
  | g :: rest => if any_in g.1 t then 0 else S (first_index rest t)
  end.

(** The requests a state has recorded. *)
Definition calls {World : Type} (st : State (World * list request))
  : list request := (world st).2.

(** The line printed when an attempt fails. *)
Definition failure_line (e : string) : string :=
  "OpenAI call failed, falling back to heuristics: " +:+ e.

(** The line printed when the table is written. *)
Definition saved_line : string :=
  "Processed output saved to output/processed_emails.csv".

End Spec.

(** ** Sample rows, environments and services *)

Module Samples.
Import Py Main Batch.

Definition bob : InputRecord :=
  mkInput (Some "Bob") (Some "URGENT: login issue")
    (Some "I am blocked, please help, Regards, Bob").

Definition hello : InputRecord :=
  mkInput (Some "Ann") (Some "hello") (Some "this is urgent").

(** A subject of two lines, the second a sign-off that names a topic. *)
Definition two_line_subject : InputRecord :=
  mkInput (Some "Ann") (Some ("Hi" +:+ nl +:+ "Regards, billing team"))
    (Some "see subject").

(** The body of the normalizer example of the spec. *)
Definition signed_body : string :=
  "Hello" +:+ nl +:+ nl +:+ "Please help" +:+ nl +:+ "Regards," +:+ nl +:+ "John".

(** A body whose first line is a sign-off, and one whose last line is "--". *)
Definition sign_off_first : string := "Regards," +:+ nl +:+ "John".
Definition dashes_last : string := "Hi" +:+ nl +:+ "--".

Definition env_no_key : Environ := mkEnviron None None true.
Definition env_key : Environ := mkEnviron (Some "sk-test") None true.

(** A service that fails on every call. *)
Definition failing (_ : request) (w : unit) : outcome * unit :=
  (Raised "Connection error.", w).

(** A service that answers every request with the empty text. *)
Definition silent (_ : request) (w : unit) : outcome * unit :=
  (Returned (Some [Some ""]), w).

(** A service that returns no choice for the summary and a text for the
    reply; the two requests differ in [max_tokens]. *)
Definition reply_only (req : request) (w : unit) : outcome * unit :=
  if decide (max_tokens req = 120) then (Returned (Some []), w)
  else (Returned (Some [Some " We are on it. "]), w).

Definition init : State unit := mkState tt [].

(** The columns derived from Bob's row. *)
Definition bob_derived : Derived :=
  mkDerived (Some "Bob") "URGENT: login issue"
    "I am blocked, please help, Regards, Bob"
    "I am blocked, please help, Regards, Bob"
    "high" "high" "high" "login/account" "neutral".

(** A service that answers the summary request and fails on the reply
    request. *)
Definition summary_only (req : request) (w : unit) : outcome * unit :=
  if decide (max_tokens req = 120) then (Returned (Some [Some "Blocked user."]), w)
  else (Raised "Rate limit reached.", w).

(** A body that ends with a sign-off, and what may follow it. *)
Definition thanks_body : string :=
  "Please reset my password" +:+ nl +:+ "Thanks," +:+ nl +:+ "Ann".

End Samples.

(** ** Strings *)

(** Case analysis on every test of a chain of conditionals. *)
Ltac case_tests :=
  repeat match goal with
         | |- context [if ?b then _ else _] => destruct b
         end.

Section Strings.
Import Py Spec.
Local Arguments String.append : simpl nomatch.

Lemma app_empty_r (s : string) : s +:+ "" = s.
Proof. induction s as [|c s IH]; simpl; [done | by rewrite IH]. Qed.

Lemma app_assoc_str (a b c : string) : (a +:+ b) +:+ c = a +:+ b +:+ c.
Proof. induction a as [|x a IH]; simpl; [done | by rewrite IH]. Qed.

Lemma or_else_empty (s : string) : or_else s "" = s.
Proof. by destruct s. Qed.

Lemma startswith_spec (k t : string) :
  startswith k t = true ↔ ∃ b, t = k +:+ b.
Proof.
  revert t. induction k as [|a k IH]; intros t; simpl.
  - split; [intros _; by exists t | done].
  - destruct t as [|b t]; [split; [done | by intros [? ?]] |].
    case_decide as E.
    + subst b. rewrite IH. split; intros [r Hr]; exists r; simpl in *; congruence.
    + split; [done | intros [r Hr]; simpl in Hr; congruence].
Qed.

Lemma contains_spec (k t : string) : contains k t = true ↔ occurs k t.
Proof.
  induction t as [|c t IH]; simpl.
  - rewrite orb_false_r, startswith_spec. split.
    + intros [b Hb]. by exists "", b.
    + intros (a & b & Hab). destruct a; [by exists b | done].
  - rewrite orb_true_iff, startswith_spec, IH. split.
    + intros [[b Hb] | (a & b & Hab)]; [by exists "", b |].
      exists (String c a), b. simpl. by rewrite Hab.
    + intros (a & b & Hab). destruct a as [|x a]; simpl in Hab.
      * left. by exists b.
      * right. exists a, b. congruence.
Qed.

Lemma lower_app (a b : string) : lower (a +:+ b) = lower a +:+ lower b.
Proof. induction a as [|c a IH]; simpl; [done | by rewrite IH]. Qed.

Lemma lower_split (x y t : string) :
  lower t = x +:+ y → ∃ t1 t2, t = t1 +:+ t2 ∧ lower t1 = x ∧ lower t2 = y.
Proof.
  revert t. induction x as [|c x IH]; intros t H; [by exists "", t |].
  destruct t as [|d t]; [done |]. simpl in H. injection H as Hc Ht.
  destruct (IH t Ht) as (t1 & t2 & -> & H1 & H2).
  exists (String d t1), t2. simpl. by rewrite Hc, H1.
Qed.

(** Matching in the lower-cased text is matching without regard to case. *)
Lemma occurs_lower (k t : string) :
  occurs k (lower t) ↔ occurs_any_case k t.
Proof.
  split.
  - intros (a' & b' & H). apply lower_split in H as (a & r & -> & Ha & Hr).
    apply lower_split in Hr as (u & b & -> & Hu & Hb). by exists a, u, b.
  - intros (a & u & b & -> & Hu). exists (lower a), (lower b).
    by rewrite !lower_app, Hu.
Qed.

Lemma any_in_true (ks : list string) (t : string) :
  any_in ks t = true ↔ Exists (λ k, occurs k t) ks.
Proof.
  unfold any_in. rewrite existsb_exists, Exists_exists. split.
  - intros (k & Hin & Hk). exists k. split; [by apply list_elem_of_In |].
    by apply contains_spec.
  - intros (k & Hin & Hk). exists k. split; [by apply list_elem_of_In |].
    by apply contains_spec.
Qed.

Lemma any_in_false (ks : list string) (t : string) :
  any_in ks t = false ↔ ¬ Exists (λ k, occurs k t) ks.
Proof. rewrite <- any_in_true. by destruct (any_in ks t). Qed.

Lemma first_match_spec groups dflt t :
  first_group groups dflt t (first_match groups dflt t).
Proof.
  induction groups as [|g rest IH]; simpl.
  - right. by split.
  - destruct (any_in g.1 t) eqn:E.
    + left. exists [], g, rest. repeat split; [by apply any_in_true | constructor].
    + apply any_in_false in E.
      destruct IH as [(pre & g' & post & -> & Hl & Hm & Hpre) | [Hl Hall]].
      * left. exists (g :: pre), g', post. repeat split; try done.
        by constructor.
      * right. split; [done | by constructor].
Qed.

End Strings.


(** ** The classifiers *)

Section Classifiers.
Import Py Main Spec.

Lemma topic_chain (text : string) :
  detect_topic text = first_match TOPIC_GROUPS "general" (lower text).
Proof.
  unfold detect_topic. rewrite or_else_empty. simpl.
  by rewrite !orb_false_r, !orb_assoc.
Qed.

(** C3. On every string each classifier returns one of its labels (the
    functions are total: no operation they use can raise on a string), and
    on the empty string they return "low", "general" and "neutral". *)
Theorem classifiers_total (text : string) :
  detect_urgency text ∈ URGENCY_LABELS
  ∧ detect_topic text ∈ TOPIC_LABELS
  ∧ simple_sentiment text ∈ SENTIMENT_LABELS
  ∧ detect_urgency "" = "low"
  ∧ detect_topic "" = "general"
  ∧ simple_sentiment "" = "neutral".
Proof.
  repeat split; try reflexivity.
  - unfold detect_urgency, URGENCY_LABELS.
    case_tests; set_solver.
  - unfold detect_topic, TOPIC_LABELS.
    case_tests; set_solver.
  - unfold simple_sentiment, SENTIMENT_LABELS.
    case_tests; set_solver.
Qed.

(** C4. The topic is the label of the first keyword group, in the order
    billing/refund, login/account, integration/api, system/downtime, one of
    whose keywords occurs in the lower-cased text, and "general" when none
    does; a text in which both "billing" and "login" occur (in any case) is
    "billing/refund". *)
Theorem topic_first_group (text : string) :
  first_group TOPIC_GROUPS "general" (lower text) (detect_topic text)
  ∧ (∀ k, occurs k (lower text) ↔ occurs_any_case k text)
  ∧ (occurs_any_case "billing" text → occurs_any_case "login" text →
     detect_topic text = "billing/refund").
Proof.
  split_and!.
  - rewrite topic_chain. apply first_match_spec.
  - intros k. apply occurs_lower.
  - intros Hb _. unfold detect_topic. rewrite or_else_empty.
    apply occurs_lower, contains_spec in Hb. by rewrite Hb.
Qed.

Lemma topic_first_group_witness :
  occurs_any_case "billing" "Billing and LOGIN trouble"
  ∧ occurs_any_case "login" "Billing and LOGIN trouble"
  ∧ detect_topic "Billing and LOGIN trouble" = "billing/refund".
Proof.
  assert (Hb : occurs_any_case "billing" "Billing and LOGIN trouble")
    by (by exists "", "Billing", " and LOGIN trouble").
  assert (Hl : occurs_any_case "login" "Billing and LOGIN trouble")
    by (by exists "Billing and ", "LOGIN", " trouble").
  split; [exact Hb | split; [exact Hl |]].
  destruct (topic_first_group "Billing and LOGIN trouble") as (_ & _ & H).
  exact (H Hb Hl).
Defined.

End Classifiers.


(** ** The batch *)

Section BatchFacts.
Import Py Main Batch Spec.
Context {World : Type}.
Variable create : request → World → outcome * World.
Variable env : Environ.

Lemma detect_urgency_label (text : string) :
  ∃ u, detect_urgency text = label u.
Proof.
  unfold detect_urgency.
  case_tests; [by exists High | by exists Medium | by exists Low].
Qed.

Lemma pick_urgency_label (a b : urgency) :
  pick_urgency (label a) (label b) = Some (label (urgency_max a b)).
Proof. by destruct a, b. Qed.

Lemma derive_total (r : InputRecord) :
  ∃ us ub,
    detect_urgency (fillna (subject r)) = label us
    ∧ detect_urgency (clean_text (Some (fillna (body r)))) = label ub
    ∧ derive r =
        Some (mkDerived (sender r) (fillna (subject r)) (fillna (body r))
                (clean_text (Some (fillna (body r)))) (label us) (label ub)
                (label (urgency_max us ub))
                (detect_topic (fillna (subject r)))
                (simple_sentiment (clean_text (Some (fillna (body r)))))).
Proof.
  destruct (detect_urgency_label (fillna (subject r))) as [us Hs].
  destruct (detect_urgency_label (clean_text (Some (fillna (body r)))))
    as [ub Hb].
  exists us, ub. unfold derive. rewrite Hs, Hb, pick_urgency_label. done.
Qed.

Lemma derive_all_total (rows : list InputRecord) :
  ∃ ds, mapM derive rows = Some ds
        ∧ Forall2 (λ r d, derive r = Some d) rows ds.
Proof.
  assert (H : is_Some (mapM derive rows)).
  { apply mapM_is_Some, Forall_forall. intros r _.
    destruct (derive_total r) as (? & ? & _ & _ & Hd).
    unfold compose. rewrite Hd. by eexists. }
  destruct H as [ds Hds]. exists ds. split; [done | by apply mapM_Some].
Qed.

Lemma enrich_carries (d : Derived) (st : State World) :
  carries d (enrich create env d st).1.
Proof.
  unfold enrich.
  destruct (try_openai_summary_and_reply create env (d_clean_body d) st)
    as [[s rep] st'].
  by repeat split.
Qed.

Lemma enrich_all_carries (ds : list Derived) (st : State World) :
  Forall2 carries ds (enrich_all create env ds st).1.
Proof.
  revert st. induction ds as [|d ds IH]; intros st; simpl; [constructor |].
  pose proof (enrich_carries d st) as Hd.
  destruct (enrich create env d st) as [e st1].
  specialize (IH st1). destruct (enrich_all create env ds st1) as [es st2].
  by constructor.
Qed.

Lemma main_rows (rows : list InputRecord) (st : State World) :
  rows ≠ [] → main create env (Some rows) st = process create env rows st.
Proof. by destruct rows. Qed.

Lemma main_no_rows (st : State World) :
  main create env (Some []) st = (Aborted, st).
Proof. done. Qed.

(** A run on a table that has rows writes one row per input row, each
    carrying the columns derived from that row. *)
Lemma main_written (rows : list InputRecord) (st : State World) :
  rows ≠ [] →
  ∃ es st',
    main create env (Some rows) st = (Written es, st')
    ∧ Forall2 (λ r e, ∃ d, derive r = Some d ∧ carries d e) rows es.
Proof.
  intros Hrows. destruct (derive_all_total rows) as (ds & Hds & Hall).
  pose proof (enrich_all_carries ds st) as Hc.
  rewrite main_rows by done. unfold process. rewrite Hds.
  destruct (enrich_all create env ds st) as [es st'].
  eexists _, _. split; [done |].
  simpl in Hc. clear Hds Hrows. revert es Hc.
  induction Hall as [|r d rows ds Hr _ IH]; intros es Hc;
    inversion Hc; subst; constructor; eauto.
Qed.

End BatchFacts.

Section BatchClaims.
Import Py Main Batch Spec Samples.
Context {World : Type}.
Variable create : request → World → outcome * World.
Variable env : Environ.

(** C1. On a table that has rows, every row of the output has as
    [likely_urgency] the maximum, in the order low < medium < high, of the
    urgency of its subject and the urgency of its cleaned body (a table
    without rows has no record: the run aborts); a subject "hello" with the
    body "this is urgent" gets "high". *)
Theorem likely_urgency_is_max (rows : list InputRecord) (st : State World) :
  (rows ≠ [] →
   ∃ es st',
     main create env (Some rows) st = (Written es, st')
     ∧ Forall2 (λ r e, ∃ us ub,
         detect_urgency (fillna (subject r)) = label us
         ∧ detect_urgency (clean_text (Some (fillna (body r)))) = label ub
         ∧ urg_subj e = label us ∧ urg_body e = label ub
         ∧ likely_urgency e = label (urgency_max us ub)
         ∧ rank (urgency_max us ub) = Nat.max (rank us) (rank ub)) rows es)
  ∧ main create env (Some []) st = (Aborted, st)
  ∧ detect_urgency "hello" = "low"
  ∧ detect_urgency "this is urgent" = "high"
  ∧ likely_urgency <$> rows_of (main create env (Some [hello]) st).1 = ["high"].
Proof.
  split; [| split; [done | split; [done | split; [done |]]]].
  - intros Hrows.
    destruct (main_written create env rows st Hrows) as (es & st' & Hm & Hall).
    exists es, st'. split; [done |].
    eapply Forall2_impl; [exact Hall |]. intros r e (d & Hd & Hc).
    destruct (derive_total r) as (us & ub & Hs & Hb & Hr).
    rewrite Hr in Hd. injection Hd as <-.
    destruct Hc as (_ & _ & _ & _ & H1 & H2 & H3 & _). simpl in *.
    exists us, ub. repeat split; try done. by destruct us, ub.
  - destruct (main_written create env [hello] st ltac:(done))
      as (es & st' & Hm & Hall).
    rewrite Hm. simpl.
    inversion Hall as [|? e ? es' (d & Hd & Hc) Hnil]; subst.
    inversion Hnil; subst. simpl.
    vm_compute in Hd. injection Hd as <-.
    destruct Hc as (_ & _ & _ & _ & _ & _ & H3 & _). by rewrite H3.
Qed.

(** C9, amended. On a table that has rows, every row of the output has as
    [subject_topic] the topic of its subject as read from the table (a
    missing subject read as the empty string): the subject is not cleaned
    first. A table without rows has no record: the run aborts. *)
Theorem subject_topic_of_raw_subject
    (rows : list InputRecord) (st : State World) :
  (rows ≠ [] →
   ∃ es st',
     main create env (Some rows) st = (Written es, st')
     ∧ Forall2 (λ r e, subject_topic e = detect_topic (fillna (subject r)))
         rows es)
  ∧ main create env (Some []) st = (Aborted, st).
Proof.
  split; [| done]. intros Hrows.
  destruct (main_written create env rows st Hrows) as (es & st' & Hm & Hall).
  exists es, st'. split; [done |].
  eapply Forall2_impl; [exact Hall |]. intros r e (d & Hd & Hc).
  destruct (derive_total r) as (us & ub & _ & _ & Hr).
  rewrite Hr in Hd. injection Hd as <-.
  by destruct Hc as (_ & _ & _ & _ & _ & _ & _ & H4 & _).
Qed.

(** C8, amended. The row of Bob is written with the body unchanged as its
    cleaned body ("Regards," does not start a line there) and with "high"
    for the urgency of the subject, of the body and of the row. *)
Theorem bob_row (st : State World) :
  ∃ e st',
    main create env (Some [bob]) st = (Written [e], st')
    ∧ clean_body e = "I am blocked, please help, Regards, Bob"
    ∧ urg_subj e = "high" ∧ urg_body e = "high"
    ∧ likely_urgency e = "high".
Proof.
  destruct (main_written create env [bob] st ltac:(done))
    as (es & st' & Hm & Hall).
  inversion Hall as [|? e ? es' (d & Hd & Hc) Hnil]; subst.
  inversion Hnil; subst.
  exists e, st'. split; [done |].
  vm_compute in Hd. injection Hd as <-.
  destruct Hc as (_ & _ & _ & H0 & H1 & H2 & H3 & _). by rewrite H0, H1, H2, H3.
Qed.

End BatchClaims.

Section Counterexamples.
Import Py Main Batch Spec Samples.

Lemma likely_urgency_is_max_witness :
  [hello; bob] ≠ []
  ∧ ∃ es st',
      main failing env_key (Some [hello; bob]) init = (Written es, st')
      ∧ Forall2 (λ r e, ∃ us ub,
          detect_urgency (fillna (subject r)) = label us
          ∧ detect_urgency (clean_text (Some (fillna (body r)))) = label ub
          ∧ urg_subj e = label us ∧ urg_body e = label ub
          ∧ likely_urgency e = label (urgency_max us ub)
          ∧ rank (urgency_max us ub) = Nat.max (rank us) (rank ub))
          [hello; bob] es.
Proof.
  assert (H : [hello; bob] ≠ []) by discriminate.
  split; [exact H |].
  destruct (likely_urgency_is_max failing env_key [hello; bob] init)
    as [Hrows _].
  exact (Hrows H).
Defined.

Lemma subject_topic_of_raw_subject_witness :
  [two_line_subject; bob] ≠ []
  ∧ ∃ es st',
      main failing env_no_key (Some [two_line_subject; bob]) init
      = (Written es, st')
      ∧ Forall2 (λ r e, subject_topic e = detect_topic (fillna (subject r)))
          [two_line_subject; bob] es.
Proof.
  assert (H : [two_line_subject; bob] ≠ []) by discriminate.
  split; [exact H |].
  destruct (subject_topic_of_raw_subject failing env_no_key
              [two_line_subject; bob] init) as [Hrows _].
  exact (Hrows H).
Defined.

(** C8, as stated, fails: the cleaned body of Bob's row is not cut at
    "Regards,". *)
Lemma bob_clean_body_not_cut :
  clean_body <$> rows_of (main failing env_no_key (Some [bob]) init).1
  ≠ ["I am blocked, please help,"].
Proof. vm_compute. discriminate. Qed.

(** C9, as stated, fails: on a subject of two lines the topic of the raw
    subject and the topic of the cleaned subject differ. *)
Lemma subject_topic_not_of_cleaned_subject :
  subject_topic <$> rows_of (main failing env_no_key (Some [two_line_subject]) init).1
  ≠ [detect_topic (clean_text (subject two_line_subject))].
Proof. vm_compute. discriminate. Qed.

End Counterexamples.

(** ** The reply templates *)

Section Replies.
Import Py Main Batch Spec.

Lemma reply_args_lookup (sender topic urgency : string) :
  reply_args sender topic urgency !! "sender" = Some (VStr sender)
  ∧ reply_args sender topic urgency !! "subject_topic" = Some (VStr topic)
  ∧ reply_args sender topic urgency !! "likely_urgency" = Some (VStr urgency).
Proof. unfold reply_args. by repeat split; simplify_map_eq. Qed.

(** C5. For every sender, topic and urgency the reply is the template of
    section 6 chosen by the urgency ("high", "medium", anything else) with
    the sender and the topic substituted, line breaks included; for "high",
    "Alice" and "billing/refund" it is the high-urgency text. *)
Theorem generate_reply_templates (sender topic urgency : string) :
  generate_reply (reply_args sender topic urgency)
  = render (template_for urgency) sender topic
  ∧ generate_reply (reply_args "Alice" "billing/refund" "high")
    = "Dear Alice," +:+ nl +:+ nl
      +:+ "We understand your issue is urgent regarding billing/refund. Our team is already working on it and will update you shortly."
      +:+ nl +:+ nl +:+ "Best regards," +:+ nl +:+ "Support Team".
Proof.
  split; [| by vm_compute].
  destruct (reply_args_lookup sender topic urgency) as (Hs & Ht & Hu).
  unfold generate_reply, template_for. rewrite Hs, Ht, Hu. simpl.
  destruct (decide (urgency = "high")) as [-> | Hh].
  { reflexivity. }
  rewrite (bool_decide_eq_false_2 _ Hh).
  destruct (decide (urgency = "medium")) as [-> | Hm].
  { reflexivity. }
  rewrite (bool_decide_eq_false_2 _ Hm). reflexivity.
Qed.

End Replies.

(** ** The summarizer *)

Section Summaries.
Import Py Main Spec.
Local Arguments String.append : simpl nomatch.

Lemma spaceless_app (a b : string) :
  spaceless (a +:+ b) = spaceless a && spaceless b.
Proof.
  induction a as [|c a IH]; simpl; [done |]. by rewrite IH, andb_assoc.
Qed.

Lemma emit_nonempty (cur : string) (rest : list string) :
  cur ≠ "" → emit cur rest = cur :: rest.
Proof. by destruct cur. Qed.

Lemma app_chr_nonempty (cur : string) (c : ascii) : cur +:+ chr c ≠ "".
Proof. by destruct cur. Qed.

(** Reading a word moves it into the run being read. *)
Lemma split_go_word (w cur s : string) :
  spaceless w = true → split_go cur (w +:+ s) = split_go (cur +:+ w) s.
Proof.
  revert cur. induction w as [|c w IH]; intros cur Hw; simpl.
  - by rewrite app_empty_r.
  - simpl in Hw. apply andb_true_iff in Hw as [Hc Hw].
    apply negb_true_iff in Hc. rewrite Hc, IH by done.
    by rewrite app_assoc_str.
Qed.

Lemma split_token (w : string) : token w → split w = [w].
Proof.
  intros [Hne Hw]. unfold split.
  rewrite <- (app_empty_r w) at 1. rewrite split_go_word by done.
  simpl. by apply emit_nonempty.
Qed.

(** Splitting what [join] wrote gives the tokens back. *)
Lemma split_join (ws : list string) :
  Forall token ws → split (join " " ws) = ws.
Proof.
  induction 1 as [|w ws Hw Hws IH]; [done |].
  destruct ws as [|w' ws]; [by apply split_token |].
  change (join " " (w :: w' :: ws)) with (w +:+ " " +:+ join " " (w' :: ws)).
  destruct Hw as [Hne Hw]. unfold split. rewrite split_go_word by done.
  change (split_go ("" +:+ w) (" " +:+ join " " (w' :: ws)))
    with (emit w (split (join " " (w' :: ws)))).
  by rewrite emit_nonempty, IH.
Qed.

Lemma Tokens_space (c : ascii) (s : string) (ws : list string) :
  isspace c = true → Tokens s ws → Tokens (String c s) ws.
Proof.
  intros Hc [g Hg | g w rest ws' Hg Hw Hr Hws].
  - apply Tokens_blank. simpl. by rewrite Hc.
  - apply (Tokens_word (String c g)); try done. simpl. by rewrite Hc.
Qed.

Lemma Tokens_first (s w rest : string) (ws : list string) :
  s = w +:+ rest → token w → at_boundary rest → Tokens rest ws →
  Tokens s (w :: ws).
Proof. intros -> Hw Hr Hws. by apply (Tokens_word "" w rest). Qed.

Lemma split_go_Tokens (s cur : string) :
  spaceless cur = true → Tokens (cur +:+ s) (split_go cur s).
Proof.
  revert cur. induction s as [|c s IH]; intros cur Hcur; simpl.
  - rewrite app_empty_r. destruct cur as [|x cur]; [by apply Tokens_blank |].
    apply (Tokens_first _ (String x cur) ""); try done.
    + by rewrite app_empty_r.
    + by apply Tokens_blank.
  - destruct (isspace c) eqn:Hc.
    + pose proof (Tokens_space c _ _ Hc (IH "" eq_refl)) as Hrest.
      destruct cur as [|x cur]; [done |].
      by apply (Tokens_first _ (String x cur) (String c s)).
    + replace (cur +:+ String c s) with ((cur +:+ chr c) +:+ s)
        by apply app_assoc_str.
      apply IH.
      rewrite spaceless_app, Hcur. simpl. by rewrite Hc.
Qed.

Lemma split_Tokens (s : string) : Tokens s (split s).
Proof. apply (split_go_Tokens s ""). done. Qed.

Lemma Tokens_tokens (s : string) (ws : list string) :
  Tokens s ws → Forall token ws.
Proof. induction 1; by constructor. Qed.

Lemma split_blank (g s : string) :
  blank g = true → split (g +:+ s) = split s.
Proof.
  induction g as [|c g IH]; simpl; [done |].
  intros [Hc Hg]%andb_true_iff. unfold split in *. simpl.
  rewrite Hc. by apply IH.
Qed.

Lemma split_word (w rest : string) :
  token w → at_boundary rest → split (w +:+ rest) = w :: split rest.
Proof.
  intros [Hne Hw] Hr. unfold split. rewrite split_go_word by done.
  change ("" +:+ w) with w. destruct rest as [|c rest]; simpl in *.
  - by apply emit_nonempty.
  - rewrite Hr. by apply emit_nonempty.
Qed.

(** [split] returns the one list of tokens a text has. *)
Lemma Tokens_split (s : string) (ws : list string) :
  Tokens s ws → split s = ws.
Proof.
  induction 1 as [g Hg | g w rest ws Hg Hw Hr _ IH].
  - rewrite <- (app_empty_r g). by rewrite split_blank.
  - by rewrite split_blank, split_word, IH.
Qed.

Lemma slice_to_all {A} (l : list A) (n : Z) :
  len_gt l n = false → slice_to n l = l.
Proof.
  unfold len_gt, slice_to. intros H. apply Z.ltb_ge in H.
  assert (0 ≤ n) as ->%Z.leb_le by lia. apply take_ge. lia.
Qed.

Lemma summarize_whole (text : string) (n : Z) :
  len_gt (split text) n = false → summarize text n = join " " (split text).
Proof.
  intros H. unfold summarize. rewrite or_else_empty, H, slice_to_all by done.
  apply app_empty_r.
Qed.

(** C6, amended. For a bound [max_words ≥ 0] the summary is the first
    [max_words] whitespace-split tokens joined by single spaces, followed by
    "..." (with no space before it) exactly when there are more tokens than
    [max_words]; the empty text gives the empty string; "a b c" with bound 5
    gives "a b c" and "a b c d e f" gives "a b c d e...". *)
Theorem summarize_truncates (text : string) (max_words : Z) :
  0 ≤ max_words →
  Tokens text (split text)
  ∧ (∀ ws, Tokens text ws → ws = split text)
  ∧ (Z.of_nat (length (split text)) ≤ max_words →
     summarize text max_words = join " " (split text))
  ∧ (max_words < Z.of_nat (length (split text)) →
     summarize text max_words
     = join " " (take (Z.to_nat max_words) (split text)) +:+ "...")
  ∧ summarize "" max_words = ""
  ∧ summarize "a b c" 5 = "a b c"
  ∧ summarize "a b c d e f" 5 = "a b c d e...".
Proof.
  intros Hn. split; [apply split_Tokens |].
  split; [intros ws Hws; symmetry; by apply Tokens_split |].
  split; [| split; [| split; [| by split]]].
  - intros H. apply summarize_whole. unfold len_gt. by apply Z.ltb_ge.
  - intros H. unfold summarize, slice_to, len_gt. rewrite or_else_empty.
    apply Z.leb_le in Hn as ->. by apply Z.ltb_lt in H as ->.
  - apply summarize_whole. unfold len_gt. simpl. by apply Z.ltb_ge.
Qed.

Lemma summarize_truncates_witness :
  0 ≤ 5 ∧ summarize "a b c d e f" 5 = "a b c d e...".
Proof.
  split; [lia |].
  exact (proj2 (proj2 (proj2 (proj2 (proj2 (proj2
           (summarize_truncates "a b c d e f" 5 ltac:(lia)))))))).
Defined.

(** C6, as stated, fails: no space separates the last word from "...", and
    with a negative bound the empty text gives "...". *)
Lemma summarize_ellipsis_unspaced :
  summarize "a b c d e f" 5 ≠ "a b c d e ..."
  ∧ summarize "" (-1) ≠ "".
Proof. split; vm_compute; discriminate. Qed.

(** C10. For every text and bound the summary is whitespace-split tokens of
    the text joined by single spaces, with "..." after them when the token
    count exceeds the bound. When it does not, the summary is all the tokens
    joined, and summarizing it again changes nothing; yet it need not be the
    text: a line feed or a run of spaces between two words becomes one
    space. *)
Theorem summarize_idempotent (text : string) (n : Z) :
  summarize text n
  = join " " (slice_to n (split text))
    +:+ (if len_gt (split text) n then "..." else "")
  ∧ (len_gt (split text) n = false →
     summarize text n = join " " (split text)
     ∧ summarize (summarize text n) n = summarize text n)
  ∧ summarize ("a" +:+ nl +:+ "b") 5 = "a b"
  ∧ summarize "a  b" 5 = "a b".
Proof.
  split; [unfold summarize; by rewrite or_else_empty |].
  split; [| by split]. intros H. split; [by apply summarize_whole |].
  rewrite (summarize_whole text n H).
  assert (Hs : split (join " " (split text)) = split text).
  { apply split_join, (Tokens_tokens text), split_Tokens. }
  rewrite summarize_whole; by rewrite Hs.
Qed.

Lemma summarize_idempotent_witness :
  len_gt (split "a  b") 5 = false
  ∧ summarize (summarize "a  b" 5) 5 = summarize "a  b" 5
  ∧ summarize "a  b" 5 ≠ "a  b".
Proof.
  assert (H : len_gt (split "a  b") 5 = false) by (vm_compute; reflexivity).
  split; [exact H |]. split.
  - destruct (summarize_idempotent "a  b" 5) as (_ & Hidem & _).
    exact (proj2 (Hidem H)).
  - vm_compute. discriminate.
Defined.

End Summaries.

(** ** The external generator and the fallback *)

Section Fallback.
Import Py Main Batch Spec Samples.
Context {World : Type}.
Variable create : request → World → outcome * World.
Variable env : Environ.

(** A row is the fallback of each field the generator left absent. *)
Lemma enrich_default (d : Derived) (st : State World) :
  let r := (try_openai_summary_and_reply create env (d_clean_body d) st).1 in
  summary (enrich create env d st).1
  = default (summarize (d_clean_body d) DEFAULT_MAX_WORDS) r.1
  ∧ auto_reply (enrich create env d st).1
    = default (generate_reply (reply_row d)) r.2.
Proof.
  unfold enrich. destruct (try_openai_summary_and_reply create env (d_clean_body d) st) as [[s rep] st'].
  by destruct s, rep.
Qed.

Lemma enrich_absent (d : Derived) (st : State World) :
  (try_openai_summary_and_reply create env (d_clean_body d) st).1 = (None, None) →
  (enrich create env d st).1 = deterministic d.
Proof.
  unfold enrich. destruct (try_openai_summary_and_reply create env (d_clean_body d) st) as [[s rep] st'].
  simpl. by intros [= -> ->].
Qed.

Lemma try_no_key (text : string) (st : State World) :
  OPENAI_API_KEY env = None ∨ OPENAI_API_KEY env = Some "" →
  try_openai_summary_and_reply create env text st = ((None, None), st).
Proof.
  intros H. unfold try_openai_summary_and_reply. by destruct H as [-> | ->].
Qed.

Lemma try_raised (text e : string) (st st' : State World) :
  attempt create env text st = (Exc e, st') →
  (try_openai_summary_and_reply create env text st).1 = (None, None).
Proof.
  intros H. unfold try_openai_summary_and_reply.
  destruct (OPENAI_API_KEY env) as [[|c k] |]; try done. by rewrite H.
Qed.

Lemma try_returned (text k : string) (st : State World)
    (r1 r2 : option (list (option string))) (w1 w2 : World)
    (s rep : option string) :
  OPENAI_API_KEY env = Some k → k ≠ "" → openai_installed env = true →
  create (summary_request env text) (world st) = (Returned r1, w1) →
  create (reply_request env text) w1 = (Returned r2, w2) →
  content_of r1 = Val s → content_of r2 = Val rep →
  try_openai_summary_and_reply create env text st = ((s, rep), mkState w2 (stdout st)).
Proof.
  intros Hk Hne Hi H1 H2 Hs Hr. unfold try_openai_summary_and_reply.
  rewrite Hk. destruct k as [|c k]; [done |].
  unfold attempt, call. rewrite Hi. simpl. rewrite H1, Hs. simpl.
  by rewrite H2, Hr.
Qed.

(** A service that raises on every call makes every attempt fail. *)
Lemma attempt_raises (text : string) (st : State World) :
  (∀ req w, ∃ e w', create req w = (Raised e, w')) →
  ∃ e st', attempt create env text st = (Exc e, st').
Proof.
  intros H. unfold attempt, call.
  destruct (openai_installed env); simpl; [| by eexists _, _].
  destruct (H (summary_request env text) (world st)) as (e & w' & ->).
  by eexists _, _.
Qed.

Lemma enrich_all_deterministic (ds : list Derived) (st : State World) :
  (∀ d st, (enrich create env d st).1 = deterministic d) →
  (enrich_all create env ds st).1 = deterministic <$> ds.
Proof.
  intros H. revert st. induction ds as [|d ds IH]; intros st; simpl; [done |].
  specialize (H d st). destruct (enrich create env d st) as [e st1].
  specialize (IH st1). destruct (enrich_all create env ds st1) as [es st2].
  simpl in *. by subst.
Qed.

Lemma main_deterministic (rows : list InputRecord) (st : State World) :
  rows ≠ [] →
  (∀ d st, (enrich create env d st).1 = deterministic d) →
  ∃ ds, mapM derive rows = Some ds
        ∧ (main create env (Some rows) st).1 = Written (deterministic <$> ds).
Proof.
  intros Hrows H. destruct (derive_all_total rows) as (ds & Hds & _).
  exists ds. split; [done |]. rewrite main_rows by done.
  unfold process. rewrite Hds.
  pose proof (enrich_all_deterministic ds st H) as Hall.
  destruct (enrich_all create env ds st) as [es st']. simpl in *. by subst.
Qed.

(** C2, amended. Without a credential no call is made and every row has the
    deterministic summary (25 words) and reply; so has a row whose attempt
    raises, and every row when the service raises on every call. When both
    calls return, each field falls back on its own exactly when it is absent
    (a falsy response or no choice), and a text the service returns is kept
    with the whitespace at its ends stripped, the empty text included. A run
    on a table that has rows always writes one row per input row, whatever
    the service does; a table without rows aborts the run before any call
    to the service. *)
Theorem fallback_per_field :
  (OPENAI_API_KEY env = None ∨ OPENAI_API_KEY env = Some "" →
     (∀ d st, enrich create env d st = (deterministic d, st))
     ∧ (∀ rows st, rows ≠ [] → ∃ ds,
          mapM derive rows = Some ds
          ∧ (main create env (Some rows) st).1 = Written (deterministic <$> ds)))
  ∧ (∀ d st e st',
       attempt create env (d_clean_body d) st = (Exc e, st') →
       (enrich create env d st).1 = deterministic d)
  ∧ ((∀ req w, ∃ e w', create req w = (Raised e, w')) →
     ∀ rows st, rows ≠ [] → ∃ ds,
       mapM derive rows = Some ds
       ∧ (main create env (Some rows) st).1 = Written (deterministic <$> ds))
  ∧ (∀ d st k r1 w1 r2 w2 s rep,
       OPENAI_API_KEY env = Some k → k ≠ "" → openai_installed env = true →
       create (summary_request env (d_clean_body d)) (world st)
         = (Returned r1, w1) →
       create (reply_request env (d_clean_body d)) w1 = (Returned r2, w2) →
       content_of r1 = Val s → content_of r2 = Val rep →
       summary (enrich create env d st).1
         = match s with
           | Some text => text
           | None => summarize (d_clean_body d) DEFAULT_MAX_WORDS
           end
       ∧ auto_reply (enrich create env d st).1
         = match rep with
           | Some text => text
           | None => generate_reply (reply_row d)
           end)
  ∧ content_of None = Val None
  ∧ content_of (Some []) = Val None
  ∧ (∀ c rest, content_of (Some (Some c :: rest)) = Val (Some (strip c)))
  ∧ (∀ rows st, rows ≠ [] → ∃ es st',
       main create env (Some rows) st = (Written es, st')
       ∧ length es = length rows)
  ∧ (∀ st, main create env (Some []) st = (Aborted, st)).
Proof.
  split_and!; try done.
  - intros Hk. split.
    + intros d st. unfold enrich. by rewrite try_no_key.
    + intros rows st Hrows. apply main_deterministic; [done |].
      intros d st'. apply enrich_absent. by rewrite try_no_key.
  - intros d st e st' H. eapply enrich_absent, try_raised, H.
  - intros H rows st Hrows. apply main_deterministic; [done |].
    intros d st'.
    destruct (attempt_raises (d_clean_body d) st' H) as (e & st'' & He).
    eapply enrich_absent, try_raised, He.
  - intros d st k r1 w1 r2 w2 s rep Hk Hne Hi H1 H2 Hs Hr.
    pose proof (enrich_default d st) as Hd. simpl in Hd.
    rewrite (try_returned _ k st r1 r2 w1 w2 s rep) in Hd by done.
    by destruct s, rep.
  - intros rows st Hrows.
    destruct (main_written create env rows st Hrows) as (es & st' & Hm & Hall).
    exists es, st'. split; [done |]. symmetry. by eapply Forall2_length.
Qed.

End Fallback.

Section FallbackSamples.
Import Py Main Batch Spec Samples.

Lemma derive_bob : derive bob = Some bob_derived.
Proof. vm_compute. reflexivity. Qed.

Lemma fallback_per_field_witness :
  (OPENAI_API_KEY env_no_key = None ∨ OPENAI_API_KEY env_no_key = Some "")
  ∧ enrich failing env_no_key bob_derived init = (deterministic bob_derived, init)
  ∧ summary (enrich reply_only env_key bob_derived init).1
    = summarize (d_clean_body bob_derived) DEFAULT_MAX_WORDS
  ∧ auto_reply (enrich reply_only env_key bob_derived init).1 = "We are on it.".
Proof.
  assert (Hk : OPENAI_API_KEY env_no_key = None
               ∨ OPENAI_API_KEY env_no_key = Some "") by (left; reflexivity).
  split; [exact Hk |]. split.
  - destruct (fallback_per_field failing env_no_key) as [Hno _].
    destruct (Hno Hk) as [Hrow _]. apply Hrow.
  - destruct (fallback_per_field reply_only env_key)
      as (_ & _ & _ & Hfield & _).
    pose proof (Hfield bob_derived init "sk-test" (Some []) tt
                  (Some [Some " We are on it. "]) tt None
                  (Some "We are on it.")) as H.
    apply H; vm_compute; try reflexivity. discriminate.
Defined.

(** C2, as stated, fails: an empty summary and an empty reply returned by
    the service are kept, not replaced by the deterministic ones. *)
Lemma empty_generated_text_kept :
  summary <$> rows_of (main silent env_key (Some [bob]) init).1
  ≠ [summarize (clean_text (body bob)) DEFAULT_MAX_WORDS]
  ∧ auto_reply <$> rows_of (main silent env_key (Some [bob]) init).1
    ≠ [generate_reply (reply_row bob_derived)].
Proof. split; vm_compute; discriminate. Qed.

End FallbackSamples.

(** ** The normalizer *)

Section Normalizer.
Import Py Main Batch Spec Samples.
Local Arguments String.append : simpl nomatch.

(** *** Line endings *)

Lemma crlf_to_lf_pair (b : string) :
  crlf_to_lf (String CR (String LF b)) = String LF (crlf_to_lf b).
Proof. done. Qed.

Lemma crlf_to_lf_cons2 (c d : ascii) (s : string) :
  crlf_to_lf (String c (String d s))
  = if decide (c = CR ∧ d = LF) then String LF (crlf_to_lf s)
    else String c (crlf_to_lf (String d s)).
Proof. done. Qed.

(** Every CR LF of the text is read as one LF. *)
Lemma crlf_to_lf_app (a b : string) :
  crlf_to_lf (a +:+ String CR (String LF b))
  = crlf_to_lf a +:+ String LF (crlf_to_lf b).
Proof.
  enough (H : crlf_to_lf (a +:+ String CR (String LF b))
              = crlf_to_lf a +:+ String LF (crlf_to_lf b)
              ∧ ∀ c, crlf_to_lf (String c a +:+ String CR (String LF b))
                     = crlf_to_lf (String c a) +:+ String LF (crlf_to_lf b))
    by apply H.
  induction a as [|d a [IH1 IH2]].
  - split; [done |]. intros c. simpl (_ +:+ _).
    rewrite crlf_to_lf_cons2, crlf_to_lf_pair.
    case_decide as E; [by destruct E as [_ [=]] | done].
  - split; [apply IH2 |]. intros c.
    change (String c (String d a) +:+ String CR (String LF b))
      with (String c (String d (a +:+ String CR (String LF b)))).
    rewrite !crlf_to_lf_cons2. case_decide.
    + by rewrite IH1.
    + change (String d (a +:+ String CR (String LF b)))
        with (String d a +:+ String CR (String LF b)).
      by rewrite IH2.
Qed.

(** *** Blank lines *)

Lemma startswith_lf2 (s : string) :
  startswith (nl +:+ nl) s = true → (2 ≤ leading_lf s)%nat.
Proof.
  destruct s as [|c [|d s]]; simpl; try done.
  - by case_decide.
  - repeat case_decide; try done; subst. intros _. lia.
Qed.

Lemma contains_cons (k : string) (c : ascii) (t : string) :
  contains k (String c t) = startswith k (String c t) || contains k t.
Proof. done. Qed.

Lemma startswith_lf3 (c : ascii) (s : string) :
  startswith (nl +:+ nl +:+ nl) (String c s)
  = bool_decide (c = LF) && startswith (nl +:+ nl) s.
Proof.
  change (startswith (nl +:+ nl +:+ nl) (String c s))
    with (if decide (LF = c) then startswith (nl +:+ nl) s else false).
  case_decide; case_bool_decide; by subst.
Qed.

Lemma collapse_go_runs (s : string) (run : nat) :
  (run ≤ 2)%nat →
  (leading_lf (collapse_go run s) + run ≤ 2)%nat
  ∧ contains (nl +:+ nl +:+ nl) (collapse_go run s) = false.
Proof.
  revert run. induction s as [|c s IH]; intros run Hrun;
    [by split; [simpl; lia |] |].
  simpl collapse_go. case_decide as Hc.
  - subst c. destruct run as [|[|run]].
    + destruct (IH 1%nat ltac:(lia)) as [Hl Hn]. split; [simpl; lia |].
      rewrite contains_cons, Hn, orb_false_r, startswith_lf3.
      destruct (startswith (nl +:+ nl) (collapse_go 1 s)) eqn:E;
        [| by rewrite andb_false_r].
      apply startswith_lf2 in E. lia.
    + destruct (IH 2%nat ltac:(lia)) as [Hl Hn]. split; [simpl; lia |].
      rewrite contains_cons, Hn, orb_false_r, startswith_lf3.
      destruct (startswith (nl +:+ nl) (collapse_go 2 s)) eqn:E;
        [| by rewrite andb_false_r].
      apply startswith_lf2 in E. lia.
    + assert (run = 0)%nat as -> by lia. apply IH. lia.
  - destruct (IH 0%nat ltac:(lia)) as [Hl Hn]. split.
    + simpl. rewrite decide_False by done. lia.
    + rewrite contains_cons, Hn, orb_false_r, startswith_lf3.
      by rewrite bool_decide_eq_false_2.
Qed.

(** No run of three line feeds is left. *)
Lemma collapse_no_triple (s : string) :
  contains (nl +:+ nl +:+ nl) (collapse_blank_lines s) = false.
Proof. apply (collapse_go_runs s 0). lia. Qed.

Lemma leading_lf_bound (s : string) :
  contains (nl +:+ nl +:+ nl) s = false → (leading_lf s ≤ 2)%nat.
Proof.
  destruct s as [|a [|b [|c s]]]; simpl leading_lf; intros H;
    repeat case_decide; try lia.
  subst. by rewrite contains_cons in H.
Qed.

Lemma collapse_go_id (s : string) (run : nat) :
  (run + leading_lf s ≤ 2)%nat →
  contains (nl +:+ nl +:+ nl) s = false →
  collapse_go run s = s.
Proof.
  revert run. induction s as [|c s IH]; intros run Hrun Hn; [done |].
  rewrite contains_cons in Hn. apply orb_false_iff in Hn as [_ Hn].
  simpl in *. case_decide as Hc.
  - subst c. destruct run as [|[|run]]; [| | lia]; rewrite IH; try done; lia.
  - rewrite IH; try done. apply leading_lf_bound in Hn. lia.
Qed.

(** A text without a run of three line feeds is left as it is. *)
Lemma collapse_id (s : string) :
  contains (nl +:+ nl +:+ nl) s = false → collapse_blank_lines s = s.
Proof.
  intros H. apply collapse_go_id; [| done].
  apply leading_lf_bound in H. lia.
Qed.

(** A text without CR LF is left as it is. *)
Lemma crlf_to_lf_id (s : string) :
  contains (chr CR +:+ nl) s = false → crlf_to_lf s = s.
Proof.
  induction s as [|c s IH]; [done |]. intros H.
  rewrite contains_cons in H. apply orb_false_iff in H as [Hc Hs].
  destruct s as [|d s]; [done |].
  rewrite crlf_to_lf_cons2, (IH Hs).
  case_decide as E; [| done]. destruct E as [-> ->]. done.
Qed.

(** A run of line feeds becomes at most two. *)
Lemma collapse_go_lfs (k run : nat) :
  (run ≤ 2)%nat → collapse_go run (lfs k) = lfs (Nat.min k (2 - run)).
Proof.
  revert run. induction k as [|k IH]; intros run Hrun; [done |].
  simpl. destruct run as [|[|run]].
  - by rewrite IH by lia.
  - rewrite IH by lia. by destruct k.
  - rewrite IH by lia. assert (run = 0)%nat as -> by lia.
    by rewrite Nat.min_0_r.
Qed.

Lemma collapse_lfs (k : nat) :
  collapse_blank_lines (lfs k) = lfs (Nat.min k 2).
Proof. apply (collapse_go_lfs k 0). lia. Qed.

(** Collapsing goes through a place where the text is cut, with some count
    of line feeds carried over it. *)
Lemma collapse_go_app (a b : string) (run : nat) :
  ∃ run', collapse_go run (a +:+ b)
          = collapse_go run a +:+ collapse_go run' b.
Proof.
  revert run. induction a as [|c a IH]; intros run; [by exists run |].
  simpl. case_decide.
  - destruct run as [|[|run]].
    + destruct (IH 1%nat) as [r ->]. by exists r.
    + destruct (IH 2%nat) as [r ->]. by exists r.
    + destruct (IH (S (S run))) as [r ->]. by exists r.
  - destruct (IH 0%nat) as [r ->]. by exists r.
Qed.

Lemma collapse_go_app_end (a b : string) (run : nat) :
  a ≠ "" → last_char a ≠ Some LF →
  collapse_go run (a +:+ b) = collapse_go run a +:+ collapse_go 0 b.
Proof.
  revert run. induction a as [|c a IH]; intros run Ha Hl; [done |].
  destruct a as [|d a].
  - simpl in *. rewrite !decide_False by congruence. done.
  - assert (Hd : String d a ≠ "") by done.
    change (String c (String d a) +:+ b) with (String c (String d a +:+ b)).
    change (last_char (String c (String d a)))
      with (last_char (String d a)) in Hl.
    change (collapse_go run (String c (String d a +:+ b)))
      with (if decide (c = LF)
            then match run with
                 | O | S O => String LF (collapse_go (S run) (String d a +:+ b))
                 | _ => collapse_go run (String d a +:+ b)
                 end
            else String c (collapse_go 0 (String d a +:+ b))).
    change (collapse_go run (String c (String d a)))
      with (if decide (c = LF)
            then match run with
                 | O | S O => String LF (collapse_go (S run) (String d a))
                 | _ => collapse_go run (String d a)
                 end
            else String c (collapse_go 0 (String d a))).
    case_decide; [destruct run as [|[|run]] |]; by rewrite IH.
Qed.

Lemma collapse_go_no_lead (b : string) (run : nat) :
  first_char b ≠ Some LF → collapse_go run b = collapse_go 0 b.
Proof.
  destruct b as [|c b]; [done |]. simpl. intros H.
  by rewrite !decide_False by congruence.
Qed.

(** Collapsing works on each side of a place that is not inside a run of
    line feeds. *)
Lemma collapse_app (a b : string) :
  last_char a ≠ Some LF ∨ first_char b ≠ Some LF →
  collapse_blank_lines (a +:+ b)
  = collapse_blank_lines a +:+ collapse_blank_lines b.
Proof.
  unfold collapse_blank_lines. intros [Ha | Hb].
  - destruct (decide (a = "")) as [-> | Hne]; [done |].
    by apply collapse_go_app_end.
  - destruct (collapse_go_app a b 0) as [r ->].
    by rewrite (collapse_go_no_lead b r).
Qed.

(** *** The boundary markers *)

Lemma before_marker_cons (c : ascii) (s : string) :
  before_marker (String c s)
  = if marker_at (String c s) then "" else String c (before_marker s).
Proof. done. Qed.

Lemma before_marker_empty : before_marker "" = "".
Proof. done. Qed.

(** The kept text is a prefix, followed by nothing or by a marker. *)
Lemma before_marker_prefix (s : string) :
  ∃ rest, s = before_marker s +:+ rest ∧ (rest = "" ∨ marker_at rest = true).
Proof.
  induction s as [|c s (rest & Hs & Hrest)].
  - exists "". by split; [| left].
  - rewrite before_marker_cons. destruct (marker_at (String c s)) eqn:E.
    + exists (String c s). by split; [| right].
    + exists rest. split; [| done]. simpl. by rewrite <- Hs.
Qed.

(** No marker starts inside the kept text: the cut is at the leftmost one. *)
Lemma before_marker_leftmost (a b s rest : string) :
  before_marker s = a +:+ b → b ≠ "" → s = before_marker s +:+ rest →
  marker_at (b +:+ rest) = false.
Proof.
  revert s. induction a as [|x a IH]; intros s Hab Hb Hs.
  - simpl in Hab. rewrite Hab in Hs. rewrite <- Hs.
    destruct s as [|c s]; [done |]. rewrite before_marker_cons in Hab.
    destruct (marker_at (String c s)); [by subst b | done].
  - destruct s as [|c s]; [done |]. rewrite before_marker_cons in Hab, Hs.
    destruct (marker_at (String c s)); [done |].
    simpl in Hab, Hs. injection Hab as -> Hab. injection Hs as Hs.
    by apply (IH s).
Qed.

(** A marker starts with a line feed; after it, the line is a marker line
    unless it is a last line holding "--". *)
Lemma marker_at_cons (c : ascii) (s : string) :
  marker_at (String c s)
  = bool_decide (c = LF)
    && (startswith ("--" +:+ nl) s || startswith "Regards," s
        || startswith "Best," s || startswith "Thanks," s).
Proof.
  unfold marker_at, MARKERS.
  change (existsb _ _) with
    ((if decide (LF = c) then startswith ("--" +:+ nl) s else false)
     || ((if decide (LF = c) then startswith "Regards," s else false)
         || ((if decide (LF = c) then startswith "Best," s else false)
             || ((if decide (LF = c) then startswith "Thanks," s else false)
                 || false)))).
  rewrite orb_false_r, !orb_assoc. case_decide; case_bool_decide; by subst.
Qed.

Lemma marker_line_alt (s : string) :
  s ≠ "--" →
  marker_line s
  = (startswith ("--" +:+ nl) s || startswith "Regards," s
     || startswith "Best," s || startswith "Thanks," s).
Proof. intros H. unfold marker_line. by rewrite bool_decide_eq_false_2. Qed.

Lemma spec_before_marker_cons (bol : bool) (c : ascii) (s : string) :
  spec_before_marker bol (String c s)
  = if bol && marker_line (String c s) then ""
    else String c (spec_before_marker (bool_decide (c = LF)) s).
Proof. done. Qed.

Lemma spec_before_marker_bol (s : string) :
  marker_line s = false →
  spec_before_marker true s = spec_before_marker false s.
Proof.
  intros H. destruct s as [|c s]; [done |].
  by rewrite !spec_before_marker_cons, H.
Qed.

(** Read line by line, the text kept is the one the pattern keeps, with the
    line feed that ends it when a marker was found. *)
Lemma spec_before_marker_agrees (s : string) :
  endswith (nl +:+ "--") s = false →
  ∃ tail, (tail = "" ∨ tail = nl)
          ∧ spec_before_marker false s = before_marker s +:+ tail.
Proof.
  induction s as [|c s IH]; intros He; [exists ""; by split; [left |] |].
  simpl in He. apply orb_false_iff in He as [Hne He].
  apply bool_decide_eq_false in Hne.
  destruct (IH He) as (tail & Htail & Hs).
  rewrite spec_before_marker_cons, before_marker_cons, marker_at_cons.
  rewrite andb_false_l.
  case_bool_decide as Hc; rewrite ?andb_true_l, ?andb_false_l.
  - subst c. assert (Hs' : s ≠ "--") by (intros ->; by apply Hne).
    rewrite <- (marker_line_alt s Hs').
    destruct (marker_line s) eqn:Hm.
    + exists nl. split; [by right |].
      destruct s as [|d s]; [done |]. by rewrite spec_before_marker_cons, Hm.
    + exists tail. split; [done |].
      by rewrite (spec_before_marker_bol s Hm), Hs.
  - exists tail. split; [done |]. by rewrite Hs.
Qed.

(** *** Trimming *)

Lemma blank_lstrip (x : string) : blank x = true → lstrip x = "".
Proof.
  induction x as [|c x IH]; simpl; [done |].
  intros [Hc Hx]%andb_true_iff. rewrite Hc. by apply IH.
Qed.

Lemma lstrip_app_space (x : string) (c : ascii) :
  isspace c = true →
  lstrip (x +:+ chr c) = if blank x then "" else lstrip x +:+ chr c.
Proof.
  intros Hc. induction x as [|a x IH]; simpl; [by rewrite Hc |].
  destruct (isspace a); simpl; [apply IH | done].
Qed.

Lemma rstrip_app_space (y : string) (c : ascii) :
  isspace c = true → rstrip (y +:+ chr c) = rstrip y.
Proof.
  intros Hc. induction y as [|a y IH]; simpl; [by rewrite Hc |].
  by rewrite IH.
Qed.

Lemma strip_app_space (x : string) (c : ascii) :
  isspace c = true → strip (x +:+ chr c) = strip x.
Proof.
  intros Hc. unfold strip. rewrite lstrip_app_space by done.
  destruct (blank x) eqn:E; [by rewrite blank_lstrip | by apply rstrip_app_space].
Qed.

Lemma lstrip_spec (s : string) :
  ∃ a, s = a +:+ lstrip s ∧ blank a = true
       ∧ ∀ c, first_char (lstrip s) = Some c → isspace c = false.
Proof.
  induction s as [|x s (a & Hs & Ha & Hf)]; [by exists "" |].
  simpl. destruct (isspace x) eqn:Hx.
  - exists (String x a). simpl. rewrite Hx, Ha, <- Hs. done.
  - exists "". repeat split. simpl. by intros c [= <-].
Qed.

Lemma rstrip_spec (s : string) :
  ∃ b, s = rstrip s +:+ b ∧ blank b = true
       ∧ ∀ c, last_char (rstrip s) = Some c → isspace c = false.
Proof.
  induction s as [|x s (b & Hs & Hb & Hl)]; [by exists "" |].
  simpl. destruct (rstrip s) as [|y r] eqn:Hr.
  - simpl in Hs. subst b. destruct (isspace x) eqn:Hx.
    + exists (String x s). simpl. by rewrite Hx, Hb.
    + exists s. repeat split; [done |]. simpl. by intros c [= <-].
  - exists b. repeat split; [simpl in *; congruence | done | apply Hl].
Qed.

Lemma rstrip_first (s : string) (c : ascii) :
  first_char (rstrip s) = Some c → first_char s = Some c.
Proof.
  destruct s as [|x s]; simpl; [done |].
  destruct (rstrip s); [destruct (isspace x) |]; done.
Qed.

(** [strip] removes a run of whitespace at each end and nothing else. *)
Lemma strip_spec (s : string) :
  ∃ a b, s = a +:+ strip s +:+ b ∧ blank a = true ∧ blank b = true
         ∧ (∀ c, first_char (strip s) = Some c → isspace c = false)
         ∧ (∀ c, last_char (strip s) = Some c → isspace c = false).
Proof.
  destruct (lstrip_spec s) as (a & Hs & Ha & Hf).
  destruct (rstrip_spec (lstrip s)) as (b & Hl & Hb & Hlast).
  exists a, b. unfold strip. repeat split; try done.
  - by rewrite <- Hl.
  - intros c Hc. by apply Hf, rstrip_first.
Qed.

(** C7, amended. The normalizer reads every CR LF as LF and leaves the rest
    of the text as it is; then it turns every run of two or more line feeds
    into two and leaves the rest as it is; it keeps the text before the
    leftmost of the sequences LF "--" LF, LF "Regards,", LF "Best,",
    LF "Thanks," (the whole text when there is none), and trims whitespace
    at both ends. This is the text before the first marker line whenever
    the first line is not a marker line and the text does not end with a
    line "--"; the example of the spec normalizes to its first three
    lines. *)
Theorem clean_text_normalizes (raw : string) :
  let text := collapse_blank_lines (crlf_to_lf raw) in
  (∀ a b, crlf_to_lf (a +:+ String CR (String LF b))
          = crlf_to_lf a +:+ String LF (crlf_to_lf b))
  ∧ (∀ s, contains (chr CR +:+ nl) s = false → crlf_to_lf s = s)
  ∧ (∀ k, collapse_blank_lines (lfs k) = lfs (Nat.min k 2))
  ∧ (∀ a b, last_char a ≠ Some LF ∨ first_char b ≠ Some LF →
            collapse_blank_lines (a +:+ b)
            = collapse_blank_lines a +:+ collapse_blank_lines b)
  ∧ (∀ s, contains (nl +:+ nl +:+ nl) s = false →
          collapse_blank_lines s = s)
  ∧ contains (nl +:+ nl +:+ nl) text = false
  ∧ (∃ rest,
       text = before_marker text +:+ rest
       ∧ (rest = "" ∨ marker_at rest = true)
       ∧ ∀ a b, before_marker text = a +:+ b → b ≠ "" →
                marker_at (b +:+ rest) = false)
  ∧ (∃ a b,
       before_marker text = a +:+ clean_text (Some raw) +:+ b
       ∧ blank a = true ∧ blank b = true
       ∧ (∀ c, first_char (clean_text (Some raw)) = Some c → isspace c = false)
       ∧ (∀ c, last_char (clean_text (Some raw)) = Some c → isspace c = false))
  ∧ (marker_line text = false → endswith (nl +:+ "--") text = false →
     clean_text (Some raw) = spec_clean_text raw)
  ∧ clean_text (Some signed_body) = "Hello" +:+ nl +:+ nl +:+ "Please help".
Proof.
  intros text. split_and!.
  - apply crlf_to_lf_app.
  - apply crlf_to_lf_id.
  - apply collapse_lfs.
  - apply collapse_app.
  - apply collapse_id.
  - apply collapse_no_triple.
  - destruct (before_marker_prefix text) as (rest & Hs & Hrest).
    exists rest. split_and!; [done | done |]. intros a b Hab Hb.
    by apply (before_marker_leftmost a b text rest).
  - apply strip_spec.
  - intros Hm He. unfold spec_clean_text, clean_text. fold text.
    rewrite (spec_before_marker_bol text Hm).
    destruct (spec_before_marker_agrees text He) as (tail & [-> | ->] & ->).
    + by rewrite app_empty_r.
    + symmetry. by apply strip_app_space.
  - by vm_compute.
Qed.

Lemma clean_text_normalizes_witness :
  marker_line (collapse_blank_lines (crlf_to_lf signed_body)) = false
  ∧ endswith (nl +:+ "--") (collapse_blank_lines (crlf_to_lf signed_body)) = false
  ∧ clean_text (Some signed_body) = spec_clean_text signed_body.
Proof.
  assert (Hm : marker_line (collapse_blank_lines (crlf_to_lf signed_body)) = false)
    by (vm_compute; reflexivity).
  assert (He : endswith (nl +:+ "--")
                 (collapse_blank_lines (crlf_to_lf signed_body)) = false)
    by (vm_compute; reflexivity).
  split; [exact Hm | split; [exact He |]].
  destruct (clean_text_normalizes signed_body)
    as (_ & _ & _ & _ & _ & _ & _ & _ & H & _).
  exact (H Hm He).
Defined.

(** C7, as stated, fails: a sign-off on the first line and "--" on the last
    line bound the text in the words of the spec, and not in the code. *)
Lemma marker_on_first_or_last_line_kept :
  spec_clean_text sign_off_first = ""
  ∧ clean_text (Some sign_off_first) ≠ ""
  ∧ spec_clean_text dashes_last = "Hi"
  ∧ clean_text (Some dashes_last) ≠ "Hi".
Proof. split_and!; vm_compute; (reflexivity || discriminate). Qed.

End Normalizer.

(** ** Further properties of the classifiers *)

Section ClassifierTiers.
Import Py Main Batch Spec.

Lemma any_in_lower (ks : list string) (text : string) :
  any_in ks (lower text) = true ↔ matches_any ks text.
Proof.
  rewrite any_in_true. unfold matches_any. rewrite !Exists_exists.
  split; intros (k & Hin & Hk); exists k; (split; [done |]);
    by apply occurs_lower.
Qed.

Lemma any_in_lower_false (ks : list string) (text : string) :
  any_in ks (lower text) = false ↔ ¬ matches_any ks text.
Proof. rewrite <- any_in_lower. by destruct (any_in ks (lower text)). Qed.

Lemma detect_urgency_cases (text : string) :
  (matches_any URGENT_WORDS text ∧ detect_urgency text = "high")
  ∨ (¬ matches_any URGENT_WORDS text ∧ matches_any HELP_WORDS text
     ∧ detect_urgency text = "medium")
  ∨ (¬ matches_any URGENT_WORDS text ∧ ¬ matches_any HELP_WORDS text
     ∧ detect_urgency text = "low").
Proof.
  unfold detect_urgency. rewrite or_else_empty.
  fold URGENT_WORDS HELP_WORDS.
  destruct (any_in URGENT_WORDS (lower text)) eqn:Eu.
  { left. split; [by apply any_in_lower | done]. }
  apply any_in_lower_false in Eu.
  destruct (any_in HELP_WORDS (lower text)) eqn:Eh.
  { right; left. split_and!; [done | by apply any_in_lower | done]. }
  apply any_in_lower_false in Eh. right; right. by split_and!.
Qed.

Lemma simple_sentiment_cases (text : string) :
  (matches_any POSITIVE_WORDS text ∧ simple_sentiment text = "positive")
  ∨ (¬ matches_any POSITIVE_WORDS text ∧ matches_any NEGATIVE_WORDS text
     ∧ simple_sentiment text = "negative")
  ∨ (¬ matches_any POSITIVE_WORDS text ∧ ¬ matches_any NEGATIVE_WORDS text
     ∧ simple_sentiment text = "neutral").
Proof.
  unfold simple_sentiment. rewrite or_else_empty.
  fold POSITIVE_WORDS NEGATIVE_WORDS.
  destruct (any_in POSITIVE_WORDS (lower text)) eqn:Ep.
  { left. split; [by apply any_in_lower | done]. }
  apply any_in_lower_false in Ep.
  destruct (any_in NEGATIVE_WORDS (lower text)) eqn:En.
  { right; left. split_and!; [done | by apply any_in_lower | done]. }
  apply any_in_lower_false in En. right; right. by split_and!.
Qed.

(** X1. The urgency is "high" exactly when a high-tier keyword occurs in the
    text in any case, also inside a longer word; "medium" exactly when none
    does and a medium-tier keyword occurs; "low" exactly when neither tier
    matches. *)
Theorem detect_urgency_tiers (text : string) :
  (detect_urgency text = "high" ↔ matches_any URGENT_WORDS text)
  ∧ (detect_urgency text = "medium"
     ↔ ¬ matches_any URGENT_WORDS text ∧ matches_any HELP_WORDS text)
  ∧ (detect_urgency text = "low"
     ↔ ¬ matches_any URGENT_WORDS text ∧ ¬ matches_any HELP_WORDS text).
Proof.
  destruct (detect_urgency_cases text)
    as [[Hu ->] | [(Hu & Hh & ->) | (Hu & Hh & ->)]];
    split_and!; split; try done; intuition congruence.
Qed.

Lemma detect_urgency_tiers_witness :
  matches_any URGENT_WORDS "Our site is UNBLOCKED now?"
  ∧ detect_urgency "Our site is UNBLOCKED now?" = "high".
Proof.
  assert (H : matches_any URGENT_WORDS "Our site is UNBLOCKED now?").
  { unfold matches_any, URGENT_WORDS. do 4 apply Exists_cons_tl.
    apply Exists_cons_hd. by exists "Our site is UN", "BLOCKED", " now?". }
  split; [exact H |].
  destruct (detect_urgency_tiers "Our site is UNBLOCKED now?") as [Hhigh _].
  exact (proj2 Hhigh H).
Defined.

(** X2. The sentiment is "positive" exactly when a positive keyword occurs
    in the text in any case, whatever else occurs; "negative" exactly when no
    positive keyword and some negative keyword occurs; "neutral" exactly
    when neither list matches. *)
Theorem simple_sentiment_tiers (text : string) :
  (simple_sentiment text = "positive" ↔ matches_any POSITIVE_WORDS text)
  ∧ (simple_sentiment text = "negative"
     ↔ ¬ matches_any POSITIVE_WORDS text ∧ matches_any NEGATIVE_WORDS text)
  ∧ (simple_sentiment text = "neutral"
     ↔ ¬ matches_any POSITIVE_WORDS text ∧ ¬ matches_any NEGATIVE_WORDS text).
Proof.
  destruct (simple_sentiment_cases text)
    as [[Hp ->] | [(Hp & Hn & ->) | (Hp & Hn & ->)]];
    split_and!; split; try done; intuition congruence.
Qed.

Lemma simple_sentiment_tiers_witness :
  matches_any POSITIVE_WORDS "Thanks for nothing, this is the WORST"
  ∧ simple_sentiment "Thanks for nothing, this is the WORST" = "positive".
Proof.
  assert (H : matches_any POSITIVE_WORDS "Thanks for nothing, this is the WORST").
  { unfold matches_any, POSITIVE_WORDS. apply Exists_cons_hd.
    by exists "", "Thank", "s for nothing, this is the WORST". }
  split; [exact H |].
  destruct (simple_sentiment_tiers "Thanks for nothing, this is the WORST")
    as [Hpos _].
  exact (proj2 Hpos H).
Defined.

Lemma occurs_any_case_extend (k t a b : string) :
  occurs_any_case k t → occurs_any_case k (a +:+ t +:+ b).
Proof.
  intros (x & u & y & -> & Hu). exists (a +:+ x), u, (y +:+ b).
  split; [| done]. by rewrite !app_assoc_str.
Qed.

Lemma matches_any_extend (ks : list string) (t a b : string) :
  matches_any ks t → matches_any ks (a +:+ t +:+ b).
Proof.
  unfold matches_any. intros H. eapply Exists_impl; [exact H |].
  intros k. apply occurs_any_case_extend.
Qed.

(** X3. Text around a text never lowers its urgency: the urgency of
    [a + t + b] is at least that of [t] in the order low < medium < high. *)
Theorem detect_urgency_monotone (a t b : string) :
  ∃ u u',
    detect_urgency t = label u
    ∧ detect_urgency (a +:+ t +:+ b) = label u'
    ∧ (rank u ≤ rank u')%nat.
Proof.
  destruct (detect_urgency_cases t)
    as [[Hu Ht] | [(Hu & Hh & Ht) | (Hu & Hh & Ht)]];
    destruct (detect_urgency_cases (a +:+ t +:+ b))
      as [[Hu' Hx] | [(Hu' & Hh' & Hx) | (Hu' & Hh' & Hx)]];
    rewrite Ht, Hx.
  - by exists High, High.
  - destruct Hu'. by apply matches_any_extend.
  - destruct Hu'. by apply matches_any_extend.
  - exists Medium, High. simpl. split_and!; [done | done | lia].
  - by exists Medium, Medium.
  - destruct Hh'. by apply matches_any_extend.
  - exists Low, High. simpl. split_and!; [done | done | lia].
  - exists Low, Medium. simpl. split_and!; [done | done | lia].
  - by exists Low, Low.
Qed.

End ClassifierTiers.

(** ** The urgency of a row and the reply dict *)

Section RowPieces.
Import Py Main Batch Spec.

Lemma order_lookup (s : string) (a : Z) :
  order !! s = Some a
  ↔ (s = "low" ∧ a = 0) ∨ (s = "medium" ∧ a = 1) ∨ (s = "high" ∧ a = 2).
Proof.
  unfold order.
  rewrite !lookup_insert_Some, lookup_singleton_Some.
  split.
  - intros [[<- <-] | [_ [[<- <-] | [_ [<- <-]]]]]; auto.
  - intros [[-> ->] | [[-> ->] | [-> ->]]]; [by left | |];
      right; (split; [done |]); [by left | by right].
Qed.

Lemma order_lookup_label (s : string) :
  is_Some (order !! s) ↔ s ∈ URGENCY_LABELS.
Proof.
  unfold URGENCY_LABELS. split.
  - intros [a Ha]. apply order_lookup in Ha.
    rewrite !elem_of_cons. tauto.
  - rewrite !elem_of_cons, elem_of_nil.
    intros [-> | [-> | [-> | []]]]; by eexists.
Qed.

(** X4. Choosing the urgency of a row succeeds exactly when both operands
    are among "low", "medium", "high" (any other string is a missing key of
    [order]); the result is one of the operands and does not depend on
    their order. *)
Theorem pick_urgency_labels (us ub : string) :
  (is_Some (pick_urgency us ub)
   ↔ us ∈ URGENCY_LABELS ∧ ub ∈ URGENCY_LABELS)
  ∧ (∀ x, pick_urgency us ub = Some x →
          (x = us ∨ x = ub) ∧ pick_urgency ub us = Some x).
Proof.
  split.
  - rewrite <- !order_lookup_label. unfold pick_urgency.
    destruct (order !! us) as [a|], (order !! ub) as [b|]; simpl;
      split; try done; try (intros [[? ?] [? ?]]; done);
      intros [? ?]; done.
  - intros x. unfold pick_urgency.
    destruct (order !! us) as [a|] eqn:Ha; [| done].
    destruct (order !! ub) as [b|] eqn:Hb; [| done]. simpl.
    apply order_lookup in Ha, Hb.
    destruct Ha as [[-> ->] | [[-> ->] | [-> ->]]];
      destruct Hb as [[-> ->] | [[-> ->] | [-> ->]]];
      intros [= <-]; split; (by left) || (by right) || done.
Qed.

Lemma pick_urgency_labels_witness :
  pick_urgency "medium" "high" = Some "high"
  ∧ pick_urgency "high" "medium" = Some "high"
  ∧ pick_urgency "urgent" "high" = None.
Proof.
  assert (H : pick_urgency "medium" "high" = Some "high")
    by (vm_compute; reflexivity).
  split; [exact H |]. split.
  - destruct (pick_urgency_labels "medium" "high") as [_ Hsym].
    exact (proj2 (Hsym "high" H)).
  - vm_compute. reflexivity.
Defined.

(** X5. On any dict [generate_reply] returns the section 6 template chosen
    by the value under "likely_urgency" (the default one when the key is
    missing or holds NaN), with the values under "sender" and
    "subject_topic" substituted; a missing key is written "None" and a NaN
    "nan". *)
Theorem generate_reply_any_dict (row : gmap string pyval) :
  generate_reply row
  = render (template_for (urgency_key row))
      (fmt (row !! "sender")) (fmt (row !! "subject_topic"))
  ∧ fmt None = "None"
  ∧ fmt (Some VNaN) = "nan".
Proof.
  split; [| done]. unfold generate_reply, urgency_key, template_for.
  generalize (fmt (row !! "sender")) (fmt (row !! "subject_topic")).
  intros who what.
  destruct (row !! "likely_urgency") as [[|u] |]; simpl; try reflexivity.
  destruct (decide (u = "high")) as [-> | Hh]; [reflexivity |].
  rewrite (bool_decide_eq_false_2 _ Hh).
  destruct (decide (u = "medium")) as [-> | Hm]; [reflexivity |].
  rewrite (bool_decide_eq_false_2 _ Hm). reflexivity.
Qed.

End RowPieces.

(** ** Further properties of the summarizer *)

Section SummaryBounds.
Import Py Main Batch Spec Samples.
Local Arguments String.append : simpl nomatch.

Lemma token_app_r (w x : string) :
  token w → spaceless x = true → token (w +:+ x).
Proof.
  intros [Hne Hw] Hx. split; [by destruct w |].
  by rewrite spaceless_app, Hw, Hx.
Qed.

Lemma join_cons2 (w w' : string) (ws : list string) :
  join " " (w :: w' :: ws) = w +:+ " " +:+ join " " (w' :: ws).
Proof. done. Qed.

Lemma glue_cons2 (w w' : string) (ws : list string) (x : string) :
  glue (w :: w' :: ws) x = w :: glue (w' :: ws) x.
Proof. done. Qed.

Lemma glue_nonempty (ws : list string) (x : string) : glue ws x ≠ [].
Proof. by destruct ws as [|w [|w' ws]]. Qed.

(** Splitting a join with a token glued to its end. *)
Lemma split_join_glue (ws : list string) (x : string) :
  Forall token ws → token x → split (join " " ws +:+ x) = glue ws x.
Proof.
  intros Hws Hx. induction Hws as [|w ws Hw Hws IH]; [by apply split_token |].
  destruct ws as [|w' ws].
  - apply split_token, token_app_r; [done | apply Hx].
  - rewrite join_cons2, glue_cons2, !app_assoc_str.
    rewrite split_word; [| done | done].
    f_equal. rewrite <- IH. by apply (split_blank " ").
Qed.

Lemma join_glue (ws : list string) (x : string) :
  join " " (glue ws x) = join " " ws +:+ x.
Proof.
  induction ws as [|w ws IH]; [done |].
  destruct ws as [|w' ws]; [done |].
  rewrite glue_cons2, join_cons2.
  pose proof (glue_nonempty (w' :: ws) x) as Hne.
  destruct (glue (w' :: ws) x) as [|g gs] eqn:Eg; [done |].
  rewrite join_cons2, IH. by rewrite !app_assoc_str.
Qed.

Lemma length_glue (ws : list string) (x : string) :
  length (glue ws x) = Nat.max (length ws) 1.
Proof.
  induction ws as [|w ws IH]; [done |].
  destruct ws as [|w' ws]; [done |]. rewrite glue_cons2. simpl length in *. lia.
Qed.

Lemma split_tokens (text : string) : Forall token (split text).
Proof. apply (Tokens_tokens text), split_Tokens. Qed.

(** The summary of a text with more tokens than the bound, split again. *)
Lemma split_summary_cut (text : string) (n : Z) :
  0 ≤ n → len_gt (split text) n = true →
  summarize text n = join " " (take (Z.to_nat n) (split text)) +:+ "..."
  ∧ split (summarize text n) = glue (take (Z.to_nat n) (split text)) "..."
  ∧ length (take (Z.to_nat n) (split text)) = Z.to_nat n.
Proof.
  intros Hn Hgt.
  assert (Hs : summarize text n
               = join " " (take (Z.to_nat n) (split text)) +:+ "...").
  { unfold summarize, slice_to. rewrite or_else_empty, Hgt.
    by apply Z.leb_le in Hn as ->. }
  split_and!; [done | |].
  - rewrite Hs. apply split_join_glue; [| done].
    apply Forall_take, split_tokens.
  - unfold len_gt in Hgt. apply Z.ltb_lt in Hgt. rewrite length_take. lia.
Qed.

(** X6. For a bound [max_words ≥ 0] summarizing is idempotent, truncated or
    not: the summary of a summary is that summary. *)
Theorem summarize_twice (text : string) (max_words : Z) :
  0 ≤ max_words →
  summarize (summarize text max_words) max_words = summarize text max_words.
Proof.
  intros Hn. destruct (len_gt (split text) max_words) eqn:Hgt.
  - destruct (split_summary_cut text max_words Hn Hgt) as (Hs & Hsplit & Hlen).
    remember (take (Z.to_nat max_words) (split text)) as ws eqn:Ews.
    clear Ews. unfold summarize at 1. rewrite or_else_empty, Hsplit.
    unfold len_gt, slice_to. apply Z.leb_le in Hn as Hn'. rewrite Hn'.
    rewrite length_glue, Hlen.
    destruct (decide (max_words = 0)) as [-> | Hpos].
    + simpl in Hlen. destruct ws; [| done]. by rewrite Hs.
    + assert ((max_words <? Z.of_nat (Nat.max (Z.to_nat max_words) 1)) = false)
        as -> by (apply Z.ltb_ge; lia).
      rewrite take_ge by (rewrite length_glue; lia).
      by rewrite join_glue, app_empty_r, Hs.
  - rewrite (summarize_whole text max_words Hgt).
    assert (Hs : split (join " " (split text)) = split text)
      by apply split_join, split_tokens.
    rewrite summarize_whole; by rewrite Hs.
Qed.

Lemma summarize_twice_witness :
  0 ≤ 3
  ∧ summarize "one two  three four five" 3 = "one two three..."
  ∧ summarize (summarize "one two  three four five" 3) 3
    = summarize "one two  three four five" 3.
Proof.
  assert (H : 0 ≤ 3) by lia.
  split; [exact H |]. split; [vm_compute; reflexivity |].
  exact (summarize_twice "one two  three four five" 3 H).
Defined.

Lemma split_summary_length (text : string) (n : Z) :
  0 ≤ n → Z.of_nat (length (split (summarize text n))) ≤ Z.max n 1.
Proof.
  intros Hn. destruct (len_gt (split text) n) eqn:Hgt.
  - destruct (split_summary_cut text n Hn Hgt) as (_ & -> & Hlen).
    rewrite length_glue, Hlen. lia.
  - rewrite (summarize_whole text n Hgt).
    rewrite split_join by apply split_tokens.
    unfold len_gt in Hgt. apply Z.ltb_ge in Hgt. lia.
Qed.

(** X7. For a bound [max_words ≥ 0] the summary has at most [max_words]
    words, at most one when the bound is 0 (the marker alone counts as a
    word). *)
Theorem summarize_word_count (text : string) (max_words : Z) :
  0 ≤ max_words →
  Z.of_nat (length (split (summarize text max_words))) ≤ Z.max max_words 1.
Proof. apply split_summary_length. Qed.

Lemma summarize_word_count_witness :
  0 ≤ 0 ∧ Z.of_nat (length (split (summarize "one two" 0))) ≤ Z.max 0 1
  ∧ summarize "one two" 0 = "...".
Proof.
  assert (H : 0 ≤ 0) by lia.
  split; [exact H |]. split; [| vm_compute; reflexivity].
  exact (summarize_word_count "one two" 0 H).
Defined.

(** X8. With a negative bound the marker is always appended, also to the
    empty text, and the last [-max_words] tokens are dropped (all of them
    when there are fewer): the summary is never empty and has as many words
    as are kept, and one word when none is. *)
Theorem summarize_negative_bound (text : string) (max_words : Z) :
  max_words < 0 →
  let kept := (length (split text) - Z.to_nat (- max_words))%nat in
  summarize text max_words = join " " (take kept (split text)) +:+ "..."
  ∧ length (split (summarize text max_words))
    = Nat.max (Nat.min kept (length (split text))) 1
  ∧ summarize text max_words ≠ "".
Proof.
  intros Hn kept.
  assert (Hs : summarize text max_words
               = join " " (take kept (split text)) +:+ "...").
  { unfold summarize, slice_to, len_gt. rewrite or_else_empty.
    assert ((0 <=? max_words) = false) as -> by (apply Z.leb_gt; lia).
    assert ((max_words <? Z.of_nat (length (split text))) = true) as ->
      by (apply Z.ltb_lt; lia).
    done. }
  assert (Hsplit : split (summarize text max_words)
                   = glue (take kept (split text)) "...").
  { rewrite Hs. apply split_join_glue; [| done].
    apply Forall_take, split_tokens. }
  split_and!; [done | |].
  - by rewrite Hsplit, length_glue, length_take.
  - intros Hempty. rewrite Hempty in Hsplit.
    by destruct (glue_nonempty (take kept (split text)) "...").
Qed.

Lemma summarize_negative_bound_witness :
  -1 < 0 ∧ summarize "a b c" (-1) = "a b..." ∧ summarize "" (-1) ≠ "".
Proof.
  assert (H : -1 < 0) by lia. split; [exact H |]. split.
  - vm_compute. reflexivity.
  - exact (proj2 (proj2 (summarize_negative_bound "" (-1) H))).
Defined.

End SummaryBounds.

(** ** Further properties of the normalizer *)

Section CleanBody.
Import Py Main Batch Spec Samples.
Local Arguments String.append : simpl nomatch.

(** *** One pass over the line endings *)

Lemma crlf_to_lf_snoc_cr (a : string) :
  crlf_to_lf (a +:+ chr CR) = crlf_to_lf a +:+ chr CR.
Proof.
  enough (H : crlf_to_lf (a +:+ chr CR) = crlf_to_lf a +:+ chr CR
              ∧ ∀ c, crlf_to_lf (String c a +:+ chr CR)
                     = crlf_to_lf (String c a) +:+ chr CR)
    by apply H.
  induction a as [|d a [IH1 IH2]].
  - split; [done |]. intros c.
    change (String c "" +:+ chr CR) with (String c (String CR "")).
    rewrite crlf_to_lf_cons2. case_decide as E; [by destruct E as [_ [=]] | done].
  - split; [apply IH2 |]. intros c.
    change (String c (String d a) +:+ chr CR)
      with (String c (String d (a +:+ chr CR))).
    rewrite !crlf_to_lf_cons2. case_decide.
    + by rewrite IH1.
    + change (String d (a +:+ chr CR)) with (String d a +:+ chr CR).
      by rewrite IH2.
Qed.

(** X9. The line endings are rewritten in one pass: a CR LF preceded by a CR
    leaves a CR LF in the result, so the cleaned text may still hold one
    and cleaning it again changes it. *)
Theorem crlf_to_lf_single_pass (a b : string) :
  crlf_to_lf (a +:+ String CR (String CR (String LF b)))
  = crlf_to_lf a +:+ String CR (String LF (crlf_to_lf b))
  ∧ clean_text (Some (String "a" (String CR (String CR (String LF "b")))))
    = String "a" (String CR (String LF "b"))
  ∧ clean_text (Some (String "a" (String CR (String LF "b"))))
    = String "a" (String LF "b").
Proof.
  split; [| by split].
  change (a +:+ String CR (String CR (String LF b)))
    with (a +:+ chr CR +:+ String CR (String LF b)).
  rewrite <- app_assoc_str, crlf_to_lf_app, crlf_to_lf_snoc_cr.
  by rewrite app_assoc_str.
Qed.

(** *** What the cleaned body never holds *)

Lemma occurs_inside (k c a b : string) :
  occurs k c → occurs k (a +:+ c +:+ b).
Proof.
  intros (x & y & ->). exists (a +:+ x), (y +:+ b). by rewrite !app_assoc_str.
Qed.

Lemma occurs_prefix (k p rest : string) : occurs k p → occurs k (p +:+ rest).
Proof.
  intros H. apply (occurs_inside k p "" rest) in H. exact H.
Qed.

Lemma startswith_self (m z : string) : startswith m (m +:+ z) = true.
Proof. apply startswith_spec. by exists z. Qed.

Lemma marker_at_marker (m z : string) :
  m ∈ MARKERS → marker_at (m +:+ z) = true.
Proof.
  intros Hm. unfold marker_at. apply existsb_exists. exists m.
  split; [by apply list_elem_of_In | apply startswith_self].
Qed.

Lemma marker_at_occurs (s : string) :
  marker_at s = true → Exists (λ m, occurs m s) MARKERS.
Proof.
  unfold marker_at. intros (m & Hin & Hm)%existsb_exists.
  apply Exists_exists. exists m. split; [by apply list_elem_of_In |].
  apply startswith_spec in Hm as [b ->]. by exists "", b.
Qed.

Lemma marker_starts_lf (m : string) :
  m ∈ MARKERS → ∃ m', m = String LF m'.
Proof.
  unfold MARKERS. rewrite !elem_of_cons, elem_of_nil.
  intros [-> | [-> | [-> | [-> | []]]]]; by eexists.
Qed.

Lemma before_marker_no_marker (s m : string) :
  m ∈ MARKERS → ¬ occurs m (before_marker s).
Proof.
  intros Hm (x & y & Hxy).
  destruct (before_marker_prefix s) as (rest & Hs & _).
  assert (H : marker_at ((m +:+ y) +:+ rest) = false).
  { apply (before_marker_leftmost x (m +:+ y) s rest); try done.
    by destruct (marker_starts_lf m Hm) as [m' ->]. }
  rewrite app_assoc_str, marker_at_marker in H; done.
Qed.

Lemma strip_inside (k p : string) : occurs k (strip p) → occurs k p.
Proof.
  intros H. destruct (strip_spec p) as (a & b & Hp & _).
  rewrite Hp. by apply occurs_inside.
Qed.

Lemma clean_text_no_marker (raw m : string) :
  m ∈ MARKERS → ¬ occurs m (clean_text (Some raw)).
Proof.
  intros Hm H. apply strip_inside in H. by apply before_marker_no_marker in H.
Qed.

Lemma clean_text_no_triple (raw : string) :
  contains (nl +:+ nl +:+ nl) (clean_text (Some raw)) = false.
Proof.
  destruct (contains _ (clean_text (Some raw))) eqn:E; [| done].
  apply contains_spec, strip_inside in E.
  destruct (before_marker_prefix (collapse_blank_lines (crlf_to_lf raw)))
    as (rest & Hs & _).
  apply (occurs_prefix _ _ rest), contains_spec in E. rewrite <- Hs in E.
  by rewrite collapse_no_triple in E.
Qed.

(** X10. The cleaned body never holds one of the marker sequences
    (LF "--" LF, LF "Regards,", LF "Best,", LF "Thanks,") nor a run of
    three line feeds. *)
Theorem clean_body_holds_no_marker (raw : string) :
  Forall (λ m, ¬ occurs m (clean_text (Some raw))) MARKERS
  ∧ ¬ occurs (nl +:+ nl +:+ nl) (clean_text (Some raw)).
Proof.
  split.
  - apply Forall_forall. intros m Hm. by apply clean_text_no_marker.
  - rewrite <- contains_spec, clean_text_no_triple. done.
Qed.

(** *** Cleaning a cleaned body *)

Lemma before_marker_id (s : string) :
  Forall (λ m, ¬ occurs m s) MARKERS → before_marker s = s.
Proof.
  induction s as [|c s IH]; intros H; [done |].
  rewrite before_marker_cons.
  destruct (marker_at (String c s)) eqn:E.
  - apply marker_at_occurs, Exists_exists in E as (m & Hm & Hocc).
    rewrite Forall_forall in H. by destruct (H m Hm).
  - rewrite IH; [done |]. eapply Forall_impl; [exact H |].
    intros m Hm (a & b & ->). apply Hm. by exists (String c a), b.
Qed.

Lemma lstrip_id (s : string) :
  (∀ c, first_char s = Some c → isspace c = false) → lstrip s = s.
Proof.
  destruct s as [|c s]; [done |]. intros H. simpl. by rewrite (H c eq_refl).
Qed.

Lemma rstrip_id (s : string) :
  (∀ c, last_char s = Some c → isspace c = false) → rstrip s = s.
Proof.
  induction s as [|c s IH]; [done |]. intros H. simpl.
  destruct s as [|d s].
  - simpl. by rewrite (H c eq_refl).
  - rewrite IH; [done |]. intros x Hx. by apply H.
Qed.

Lemma strip_strip (s : string) : strip (strip s) = strip s.
Proof.
  destruct (strip_spec s) as (a & b & _ & _ & _ & Hf & Hl).
  unfold strip at 1. by rewrite lstrip_id, rstrip_id.
Qed.

(** X11. Cleaning is idempotent on every text whose cleaned form holds no
    CR LF: cleaning the cleaned body again returns it unchanged. *)
Theorem clean_text_twice (raw : string) :
  contains (chr CR +:+ nl) (clean_text (Some raw)) = false →
  clean_text (Some (clean_text (Some raw))) = clean_text (Some raw).
Proof.
  intros Hcr. remember (clean_text (Some raw)) as c eqn:Hc.
  unfold clean_text at 1. rewrite (crlf_to_lf_id c Hcr).
  rewrite collapse_id by (subst c; apply clean_text_no_triple).
  rewrite before_marker_id.
  - subst c. unfold clean_text. apply strip_strip.
  - apply Forall_forall. intros m Hm. subst c. by apply clean_text_no_marker.
Qed.

Lemma clean_text_twice_witness :
  contains (chr CR +:+ nl) (clean_text (Some signed_body)) = false
  ∧ clean_text (Some (clean_text (Some signed_body)))
    = clean_text (Some signed_body).
Proof.
  assert (H : contains (chr CR +:+ nl) (clean_text (Some signed_body)) = false)
    by (vm_compute; reflexivity).
  split; [exact H | exact (clean_text_twice signed_body H)].
Defined.

(** *** What follows a marker *)

Lemma startswith_app (k s z : string) :
  startswith k s = true → startswith k (s +:+ z) = true.
Proof.
  intros [b ->]%startswith_spec. apply startswith_spec.
  exists (b +:+ z). by rewrite app_assoc_str.
Qed.

(** A keyword found at the start of [s + z] and not of [s] goes past the
    end of [s]. *)
Lemma startswith_app_inv (k s z : string) :
  startswith k (s +:+ z) = true →
  startswith k s = true ∨ ∃ w, w ≠ "" ∧ k = s +:+ w.
Proof.
  revert s. induction k as [|a k IH]; intros s H; [by left |].
  destruct s as [|b s]; [right; by exists (String a k) |].
  simpl in H |- *. case_decide as E; [| done]. subst b.
  destruct (IH s H) as [Hs | (w & Hw & ->)]; [by left |].
  right. by exists w.
Qed.

(** The text of a marker after its first line feed holds no line feed
    before its last character. *)
Ltac peel_prefix s H :=
  repeat (destruct s as [|? s];
          [done | simpl in H; injection H as -> H]).

Lemma marker_tail_prefix (k s w : string) :
  k ∈ ["--" +:+ nl; "Regards,"; "Best,"; "Thanks,"] →
  k = s +:+ w → w ≠ "" → contains nl s = false.
Proof.
  rewrite !elem_of_cons, elem_of_nil.
  intros [-> | [-> | [-> | [-> | []]]]] H Hw; symmetry in H;
    simpl in H; peel_prefix s H; destruct s; simpl in H; by subst.
Qed.

Lemma marker_at_app (s z : string) :
  marker_at s = true → marker_at (s +:+ z) = true.
Proof.
  unfold marker_at. rewrite !existsb_exists. intros (m & Hm & Hs).
  exists m. split; [done | by apply startswith_app].
Qed.

Lemma marker_at_straddles (c : ascii) (s z : string) :
  marker_at (String c s +:+ z) = true → marker_at (String c s) = false →
  contains nl s = false.
Proof.
  change (String c s +:+ z) with (String c (s +:+ z)).
  rewrite !marker_at_cons. case_bool_decide; [| done].
  rewrite !andb_true_l, !orb_true_iff, !orb_false_iff.
  intros Hz (((H1 & H2) & H3) & H4).
  assert (Hk : ∃ k w, k ∈ ["--" +:+ nl; "Regards,"; "Best,"; "Thanks,"]
                      ∧ w ≠ "" ∧ k = s +:+ w).
  { destruct Hz as [[[Hz | Hz] | Hz] | Hz];
      apply startswith_app_inv in Hz as [Hz | (w & Hw & Hk)];
      try congruence; eexists _, w; (split; [| done]);
      rewrite !elem_of_cons; auto. }
  destruct Hk as (k & w & Hk & Hw & Heq).
  by apply (marker_tail_prefix k s w).
Qed.

Lemma before_marker_no_lf (s : string) :
  contains nl s = false → before_marker s = s.
Proof.
  intros H. apply before_marker_id, Forall_forall. intros m Hm (a & b & ->).
  destruct (marker_starts_lf m Hm) as [m' ->].
  assert (Hocc : occurs nl (a +:+ String LF m' +:+ b))
    by (exists a, (m' +:+ b); done).
  apply contains_spec in Hocc. congruence.
Qed.

(** Once a marker is found in [s], what is appended to [s] is not read. *)
Lemma before_marker_app (s z : string) :
  before_marker s ≠ s → before_marker (s +:+ z) = before_marker s.
Proof.
  induction s as [|c s IH]; intros H; [done |].
  change (String c s +:+ z) with (String c (s +:+ z)).
  rewrite !before_marker_cons in *.
  destruct (marker_at (String c s)) eqn:E.
  - pose proof (marker_at_app (String c s) z E) as Ez.
    change (String c s +:+ z) with (String c (s +:+ z)) in Ez.
    by rewrite Ez.
  - assert (Hs : before_marker s ≠ s) by congruence.
    destruct (marker_at (String c (s +:+ z))) eqn:Ez.
    + apply (marker_at_straddles c s z) in Ez; [| done].
      by apply before_marker_no_lf in Ez.
    + by rewrite IH.
Qed.

Lemma contains_app_false (k s z : string) :
  contains k (s +:+ z) = false → contains k s = false.
Proof.
  intros H. destruct (contains k s) eqn:E; [| done].
  apply contains_spec, (occurs_prefix _ _ z), contains_spec in E. congruence.
Qed.

(** X12. In a body without CR LF and without a run of three line feeds,
    nothing that follows the first marker has any effect: if a marker occurs
    in [s], the cleaned form of [s + z] is that of [s], whatever [z] is. *)
Theorem clean_text_ignores_what_follows (s z : string) :
  contains (chr CR +:+ nl) (s +:+ z) = false →
  contains (nl +:+ nl +:+ nl) (s +:+ z) = false →
  Exists (λ m, occurs m s) MARKERS →
  clean_text (Some (s +:+ z)) = clean_text (Some s).
Proof.
  intros Hcr Hlf Hm. unfold clean_text.
  rewrite (crlf_to_lf_id _ Hcr), (collapse_id _ Hlf).
  rewrite (crlf_to_lf_id _ (contains_app_false _ _ _ Hcr)).
  rewrite (collapse_id _ (contains_app_false _ _ _ Hlf)).
  rewrite before_marker_app; [done |]. intros Heq.
  apply Exists_exists in Hm as (m & Hin & Hocc).
  rewrite <- Heq in Hocc. by apply before_marker_no_marker in Hocc.
Qed.

Lemma clean_text_ignores_what_follows_witness :
  clean_text (Some (thanks_body +:+ " (sent from my phone, URGENT)"))
  = clean_text (Some thanks_body)
  ∧ clean_text (Some thanks_body) = "Please reset my password".
Proof.
  split; [| vm_compute; reflexivity].
  apply clean_text_ignores_what_follows.
  - vm_compute; reflexivity.
  - vm_compute; reflexivity.
  - unfold MARKERS. do 3 apply Exists_cons_tl. apply Exists_cons_hd.
    by exists "Please reset my password", (nl +:+ "Ann").
Defined.

Lemma clean_body_holds_no_marker_witness :
  ¬ occurs (nl +:+ "Regards,") (clean_text (Some signed_body)).
Proof.
  destruct (clean_body_holds_no_marker signed_body) as [H _].
  rewrite Forall_forall in H. apply H. unfold MARKERS.
  rewrite !elem_of_cons. auto.
Defined.

End CleanBody.

(** ** Further properties of the batch *)

Section BatchState.
Import Py Main Batch Spec Samples.
Local Arguments String.append : simpl nomatch.

Lemma Forall2_common {A B C} (R : A → B → Prop) (R' : A → C → Prop)
    (Q : B → C → Prop) (l : list A) (k : list B) (k' : list C) :
  (∀ a b c, R a b → R' a c → Q b c) →
  Forall2 R l k → Forall2 R' l k' → Forall2 Q k k'.
Proof.
  intros HQ H. revert k'. induction H as [|a b l k Hab _ IH]; intros k' H';
    inversion H'; subst; constructor; eauto.
Qed.

(** X13. The columns computed before the loop (cleaned body, the three
    urgencies, topic, sentiment and the input columns) do not depend on the
    service, the environment or the state: two runs on one table agree on
    them row by row. *)
Theorem derived_columns_independent {World World' : Type}
    (create : request → World → outcome * World)
    (create' : request → World' → outcome * World')
    (env env' : Environ) (rows : list InputRecord)
    (st : State World) (st' : State World') :
  Forall2 same_derived_columns
    (rows_of (main create env (Some rows) st).1)
    (rows_of (main create' env' (Some rows) st').1).
Proof.
  destruct (decide (rows = [])) as [-> | Hrows]; [constructor |].
  destruct (main_written create env rows st Hrows) as (es & s1 & Hm & Hall).
  destruct (main_written create' env' rows st' Hrows)
    as (es' & s2 & Hm' & Hall').
  rewrite Hm, Hm'. simpl.
  eapply Forall2_common; [| exact Hall | exact Hall'].
  intros r e e' (d & Hd & Hc) (d' & Hd' & Hc').
  rewrite Hd in Hd'. injection Hd' as <-.
  destruct Hc as (? & ? & ? & ? & ? & ? & ? & ? & ?).
  destruct Hc' as (? & ? & ? & ? & ? & ? & ? & ? & ?).
  unfold same_derived_columns. split_and!; congruence.
Qed.

Section OneService.
Context {World : Type}.
Variable create : request → World → outcome * World.
Variable env : Environ.

Lemma enrich_all_no_key (ds : list Derived) (st : State World) :
  OPENAI_API_KEY env = None ∨ OPENAI_API_KEY env = Some "" →
  enrich_all create env ds st = (deterministic <$> ds, st).
Proof.
  intros Hk. induction ds as [|d ds IH]; [done |]. simpl.
  unfold enrich at 1. rewrite (try_no_key create env _ st Hk).
  fold (deterministic d). by rewrite IH.
Qed.

(** X14. Without a credential a run on a table that has rows never calls
    the service and logs no failure: the state of the service is untouched
    and the only line printed is the one that reports the table written. *)
Theorem main_without_credential
    (rows : list InputRecord) (st : State World) :
  OPENAI_API_KEY env = None ∨ OPENAI_API_KEY env = Some "" →
  rows ≠ [] →
  ∃ ds,
    mapM derive rows = Some ds
    ∧ main create env (Some rows) st
      = (Written (deterministic <$> ds),
         mkState (world st) (stdout st ++ [saved_line])).
Proof.
  intros Hk Hrows. destruct (derive_all_total rows) as (ds & Hds & _).
  exists ds. split; [done |]. rewrite main_rows by done. unfold process.
  by rewrite Hds, (enrich_all_no_key ds st Hk).
Qed.

Lemma attempt_stdout (text : string) (st : State World) :
  stdout (attempt create env text st).2 = stdout st.
Proof.
  unfold attempt, call. destruct (openai_installed env); simpl; [| done].
  destruct (create (summary_request env text) (world st)) as [[e | r1] w1];
    simpl; [done |].
  destruct (content_of r1) as [s | e]; simpl; [| done].
  destruct (create (reply_request env text) w1) as [[e | r2] w2];
    simpl; [done |].
  by destruct (content_of r2).
Qed.

Lemma try_raised_state (text k e : string) (st st' : State World) :
  OPENAI_API_KEY env = Some k → k ≠ "" →
  attempt create env text st = (Exc e, st') →
  try_openai_summary_and_reply create env text st
  = ((None, None), print (failure_line e) st').
Proof.
  intros Hk Hne H. unfold try_openai_summary_and_reply.
  rewrite Hk. destruct k as [|c k]; [done |]. by rewrite H.
Qed.

(** X15. When the summary request is answered and the reply request raises,
    the summary obtained is discarded: the row gets the deterministic
    summary and reply, and one failure line is printed. *)
Theorem reply_failure_discards_summary
    (d : Derived) (st : State World) (k e : string)
    (r1 : option (list (option string))) (s : option string) (w1 w2 : World) :
  OPENAI_API_KEY env = Some k → k ≠ "" → openai_installed env = true →
  create (summary_request env (d_clean_body d)) (world st) = (Returned r1, w1) →
  content_of r1 = Val s →
  create (reply_request env (d_clean_body d)) w1 = (Raised e, w2) →
  enrich create env d st
  = (deterministic d, mkState w2 (stdout st ++ [failure_line e])).
Proof.
  intros Hk Hne Hi H1 Hs H2. unfold enrich.
  rewrite (try_raised_state _ k e st (mkState w2 (stdout st))); try done.
  unfold attempt, call. rewrite Hi. simpl. rewrite H1, Hs. simpl.
  by rewrite H2.
Qed.

End OneService.

Lemma reply_failure_discards_summary_witness :
  enrich summary_only env_key bob_derived init
  = (deterministic bob_derived,
     mkState tt [failure_line "Rate limit reached."]).
Proof.
  apply (reply_failure_discards_summary summary_only env_key bob_derived init
           "sk-test" "Rate limit reached."
           (Some [Some "Blocked user."]) (Some "Blocked user.") tt tt);
    vm_compute; try reflexivity. discriminate.
Defined.

Lemma main_without_credential_witness :
  (OPENAI_API_KEY env_no_key = None ∨ OPENAI_API_KEY env_no_key = Some "")
  ∧ [bob] ≠ []
  ∧ ∃ ds,
      mapM derive [bob] = Some ds
      ∧ main failing env_no_key (Some [bob]) init
        = (Written (deterministic <$> ds),
           mkState (world init) (stdout init ++ [saved_line])).
Proof.
  assert (Hk : OPENAI_API_KEY env_no_key = None
               ∨ OPENAI_API_KEY env_no_key = Some "") by (left; reflexivity).
  assert (Hrows : [bob] ≠ []) by discriminate.
  split; [exact Hk | split; [exact Hrows |]].
  exact (main_without_credential failing env_no_key [bob] init Hk Hrows).
Defined.

End BatchState.

Section BatchCalls.
Import Py Main Batch Spec Samples.
Context {World : Type}.
Variable create : request → World → outcome * World.
Variable env : Environ.

Lemma try_openai_calls (text : string) (st : State (World * list request)) :
  ∃ new,
    calls (try_openai_summary_and_reply (recording create) env text st).2
    = calls st ++ new
    ∧ (new = [] ∨ new = [summary_request env text]
       ∨ new = [summary_request env text; reply_request env text]).
Proof.
  unfold try_openai_summary_and_reply, calls.
  destruct (OPENAI_API_KEY env) as [[|c k] |];
    [exists []; by rewrite app_nil_r; split; [| left] | |
     exists []; by rewrite app_nil_r; split; [| left]].
  unfold attempt, call, recording.
  destruct (openai_installed env); simpl;
    [| exists []; by rewrite app_nil_r; split; [| left]].
  destruct (create (summary_request env text) (world st).1) as [[e | r1] w1];
    simpl; [exists [summary_request env text]; by split; [| right; left] |].
  destruct (content_of r1) as [s | e]; simpl;
    [| exists [summary_request env text]; by split; [| right; left]].
  destruct (create (reply_request env text) w1) as [[e | r2] w2]; simpl.
  - exists [summary_request env text; reply_request env text].
    rewrite <- app_assoc. by split; [| right; right].
  - destruct (content_of r2); simpl;
      exists [summary_request env text; reply_request env text];
      rewrite <- app_assoc; by split; [| right; right].
Qed.

Lemma enrich_calls (d : Derived) (st : State (World * list request)) :
  calls (enrich (recording create) env d st).2
  = calls (try_openai_summary_and_reply (recording create) env
             (d_clean_body d) st).2.
Proof.
  unfold enrich.
  by destruct (try_openai_summary_and_reply _ _ _ _) as [[s rep] st'].
Qed.

Lemma enrich_all_calls (ds : list Derived) (st : State (World * list request)) :
  (length (calls (enrich_all (recording create) env ds st).2)
   ≤ length (calls st) + 2 * length ds)%nat.
Proof.
  revert st. induction ds as [|d ds IH]; intros st; simpl; [lia |].
  pose proof (enrich_calls d st) as Hd.
  destruct (try_openai_calls (d_clean_body d) st) as (new & Hnew & Hcases).
  rewrite Hnew in Hd.
  destruct (enrich (recording create) env d st) as [e st1]. simpl in Hd.
  specialize (IH st1).
  destruct (enrich_all (recording create) env ds st1) as [es st2].
  simpl in *. rewrite Hd, length_app in IH.
  destruct Hcases as [-> | [-> | ->]]; simpl in IH; lia.
Qed.

(** X16. For one row the service receives no request, the summary request
    alone, or the summary request and then the reply request, both built
    from the cleaned body of that row; a run sends at most two requests per
    row of the table. *)
Theorem requests_per_row :
  (∀ d st, ∃ new,
     calls (enrich (recording create) env d st).2 = calls st ++ new
     ∧ (new = [] ∨ new = [summary_request env (d_clean_body d)]
        ∨ new = [summary_request env (d_clean_body d);
                 reply_request env (d_clean_body d)]))
  ∧ (∀ rows st,
       (length (calls (main (recording create) env (Some rows) st).2)
        ≤ length (calls st) + 2 * length rows)%nat).
Proof.
  split.
  - intros d st. rewrite enrich_calls. apply try_openai_calls.
  - intros rows st. destruct (decide (rows = [])) as [-> | Hrows];
      [simpl; lia |].
    destruct (derive_all_total rows) as (ds & Hds & Hall).
    rewrite main_rows by done. unfold process. rewrite Hds.
    pose proof (enrich_all_calls ds st) as H.
    destruct (enrich_all (recording create) env ds st) as [es st'].
    simpl in *. apply Forall2_length in Hall. unfold calls in *. simpl. lia.
Qed.

Lemma enrich_all_failures (k : string) (ds : list Derived) (st : State World) :
  OPENAI_API_KEY env = Some k → k ≠ "" →
  (∀ req w, ∃ e w', create req w = (Raised e, w')) →
  ∃ lines,
    (enrich_all create env ds st).1 = deterministic <$> ds
    ∧ stdout (enrich_all create env ds st).2 = stdout st ++ lines
    ∧ length lines = length ds
    ∧ Forall (λ l, ∃ e, l = failure_line e) lines.
Proof.
  intros Hk Hne Hraise. revert st.
  induction ds as [|d ds IH]; intros st; simpl.
  { exists []. by rewrite app_nil_r. }
  destruct (attempt_raises create env (d_clean_body d) st Hraise)
    as (e & st' & Hatt).
  pose proof (attempt_stdout create env (d_clean_body d) st) as Hout.
  rewrite Hatt in Hout. simpl in Hout.
  unfold enrich at 1 2.
  rewrite (try_raised_state create env _ k e st st' Hk Hne Hatt).
  fold (deterministic d).
  destruct (IH (print (failure_line e) st')) as (lines & H1 & H2 & H3 & H4).
  destruct (enrich_all create env ds (print (failure_line e) st'))
    as [es st2].
  simpl in *. exists (failure_line e :: lines). split_and!.
  - by rewrite H1.
  - by rewrite H2, Hout, <- app_assoc.
  - simpl. by rewrite H3.
  - constructor; [by exists e | done].
Qed.

(** X17. With a credential and a service that raises on every call, a run
    on a table that has rows still writes every row, from the deterministic
    path, and prints one failure line per row before the line that reports
    the table written. *)
Theorem failures_are_logged
    (k : string) (rows : list InputRecord) (st : State World) :
  OPENAI_API_KEY env = Some k → k ≠ "" →
  (∀ req w, ∃ e w', create req w = (Raised e, w')) →
  rows ≠ [] →
  ∃ ds lines,
    mapM derive rows = Some ds
    ∧ (main create env (Some rows) st).1 = Written (deterministic <$> ds)
    ∧ stdout (main create env (Some rows) st).2
      = stdout st ++ lines ++ [saved_line]
    ∧ length lines = length rows
    ∧ Forall (λ l, ∃ e, l = failure_line e) lines.
Proof.
  intros Hk Hne Hraise Hrows.
  destruct (derive_all_total rows) as (ds & Hds & Hall).
  destruct (enrich_all_failures k ds st Hk Hne Hraise)
    as (lines & H1 & H2 & H3 & H4).
  exists ds, lines. rewrite main_rows by done. unfold process. rewrite Hds.
  destruct (enrich_all create env ds st) as [es st']. simpl in *.
  apply Forall2_length in Hall. split_and!; try done.
  - by rewrite H1.
  - by rewrite H2, <- app_assoc.
  - lia.
Qed.

End BatchCalls.

Section BatchCallsSamples.
Import Py Main Batch Spec Samples.

Lemma failures_are_logged_witness :
  stdout (main failing env_key (Some [bob; hello]) init).2
  = [failure_line "Connection error."; failure_line "Connection error.";
     saved_line]
  ∧ ∃ ds lines,
      mapM derive [bob; hello] = Some ds
      ∧ (main failing env_key (Some [bob; hello]) init).1
        = Written (deterministic <$> ds)
      ∧ stdout (main failing env_key (Some [bob; hello]) init).2
        = stdout init ++ lines ++ [saved_line]
      ∧ length lines = length [bob; hello]
      ∧ Forall (λ l, ∃ e, l = failure_line e) lines.
Proof.
  split; [vm_compute; reflexivity |].
  apply (failures_are_logged failing env_key "sk-test" [bob; hello] init).
  - reflexivity.
  - discriminate.
  - intros req w. by exists "Connection error.", w.
  - discriminate.
Defined.

End BatchCallsSamples.

(** ** The topic under added text, and the length of the summaries *)

Section TopicAndLength.
Import Py Main Batch Spec Samples.

Lemma first_match_index (groups : list (list string * string))
    (dflt t : string) :
  (groups.*2 ++ [dflt]) !! first_index groups t
  = Some (first_match groups dflt t).
Proof.
  induction groups as [|g rest IH]; simpl; [done |].
  by destruct (any_in g.1 t).
Qed.

Lemma first_index_mono (groups : list (list string * string)) (t t' : string) :
  (∀ ks, any_in ks t = true → any_in ks t' = true) →
  (first_index groups t' ≤ first_index groups t)%nat.
Proof.
  intros H. induction groups as [|g rest IH]; simpl; [lia |].
  destruct (any_in g.1 t) eqn:E; [by rewrite (H _ E) |].
  destruct (any_in g.1 t'); lia.
Qed.

Lemma any_in_lower_extend (ks : list string) (a t b : string) :
  any_in ks (lower t) = true → any_in ks (lower (a +:+ t +:+ b)) = true.
Proof. rewrite !any_in_lower. apply matches_any_extend. Qed.

(** X18. Text around a text never moves its topic down the priority list
    billing/refund, login/account, integration/api, system/downtime,
    general: the topic of [a + t + b] comes at or before that of [t]. *)
Theorem detect_topic_monotone (a t b : string) :
  ∃ i j,
    TOPIC_LABELS !! i = Some (detect_topic t)
    ∧ TOPIC_LABELS !! j = Some (detect_topic (a +:+ t +:+ b))
    ∧ (j ≤ i)%nat.
Proof.
  exists (first_index TOPIC_GROUPS (lower t)),
         (first_index TOPIC_GROUPS (lower (a +:+ t +:+ b))).
  rewrite !topic_chain. split_and!.
  - apply (first_match_index TOPIC_GROUPS "general").
  - apply (first_match_index TOPIC_GROUPS "general").
  - apply first_index_mono. intros ks. apply any_in_lower_extend.
Qed.

(** X19. Without a credential every summary a run writes has at most 25
    words. *)
Theorem summaries_within_default_bound {World : Type}
    (create : request → World → outcome * World) (env : Environ)
    (rows : list InputRecord) (st : State World) :
  OPENAI_API_KEY env = None ∨ OPENAI_API_KEY env = Some "" →
  Forall (λ e, (length (split (summary e)) ≤ 25)%nat)
    (rows_of (main create env (Some rows) st).1).
Proof.
  intros Hk. destruct (decide (rows = [])) as [-> | Hrows]; [constructor |].
  destruct (derive_all_total rows) as (ds & Hds & _).
  rewrite main_rows by done. unfold process.
  rewrite Hds, (enrich_all_no_key create env ds st Hk). simpl.
  apply Forall_fmap, Forall_forall. intros d _. simpl.
  pose proof (split_summary_length (d_clean_body d) DEFAULT_MAX_WORDS) as H.
  unfold DEFAULT_MAX_WORDS in *. lia.
Qed.

Lemma summaries_within_default_bound_witness :
  (OPENAI_API_KEY env_no_key = None ∨ OPENAI_API_KEY env_no_key = Some "")
  ∧ Forall (λ e, (length (split (summary e)) ≤ 25)%nat)
      (rows_of (main failing env_no_key (Some [bob; hello]) init).1).
Proof.
  assert (Hk : OPENAI_API_KEY env_no_key = None
               ∨ OPENAI_API_KEY env_no_key = Some "") by (left; reflexivity).
  split; [exact Hk |].
  exact (summaries_within_default_bound failing env_no_key [bob; hello] init Hk).
Defined.

End TopicAndLength.
